(** * changesets: dependency-range rewriting and config validation

    A shallow embedding of [versionPackage] (apply-release-plan) and of
    [parse] (config) together with the properties their specification
    states about them.

    JavaScript objects that the code mutates in place live in an explicit
    store; exceptions are an explicit outcome.  The third-party pieces
    (semver's [Range], micromatch, [JSON.stringify]) and the
    dependents-graph builder are parameters, a section variable for semver
    and the class [Collaborators] for the rest, so every theorem holds for
    any implementation of them; semver and micromatch may throw, and what
    they throw escapes the code, which catches nothing.  Small concrete
    instances are given in [Module Fixture] and serve the examples. *)

From stdpp Require Import gmap strings list fin_maps pretty.
From Stdlib Require Import Ascii.

(** ** Outcomes: a value or a thrown exception *)

Inductive Error :=
  | TypeError                          (* a JavaScript TypeError *)
  | InvalidRange (text : string)       (* semver could not parse [text] *)
  | ValidationError (message : string) (* @changesets/errors *).

Inductive Outcome (A : Type) :=
  | Ok (a : A)
  | Throw (e : Error).
Arguments Ok {A} a.
Arguments Throw {A} e.

Definition obind {A B} (o : Outcome A) (k : A → Outcome B) : Outcome B :=
  match o with
  | Ok a => k a
  | Throw e => Throw e
  end.

(** ** String primitives of the host language *)

Module Str.

(** [s.startsWith(p)] *)
Fixpoint startsWith (p s : string) : bool :=
  match p, s with
  | EmptyString, _ => true
  | String a p', String b s' => if decide (a = b) then startsWith p' s' else false
  | String _ _, EmptyString => false
  end.

(** [s.substr(n)]: everything from index [n] on. *)
Fixpoint substr (n : nat) (s : string) : string :=
  match n, s with
  | 0, _ => s
  | S n', String _ s' => substr n' s'
  | S _, EmptyString => EmptyString
  end.

(** [xs.join(sep)] *)
Fixpoint join (sep : string) (xs : list string) : string :=
  match xs with
  | [] => ""
  | [x] => x
  | x :: rest => x +:+ sep +:+ join sep rest
  end.

Definition eqb (a b : string) : bool := bool_decide (a = b).

(** [xs.includes(x)] on an array of strings *)
Definition includes (xs : list string) (x : string) : bool :=
  bool_decide (x ∈ xs).

End Str.

(** ** The range classifier *)

(** Modelled from the spec: [getVersionRangeType] of
    @changesets/get-version-range-type is not part of the sources at hand.
    It returns the operator prefix of a range: empty for an exact version,
    the caret or the tilde, or the literal comparison operator. *)
Definition getVersionRangeType (versionRange : string) : string :=
  if Str.startsWith "^" versionRange then "^"
  else if Str.startsWith "~" versionRange then "~"
  else if Str.startsWith ">=" versionRange then ">="
  else if Str.startsWith "<=" versionRange then "<="
  else if Str.startsWith ">" versionRange then ">"
  else if Str.startsWith "<" versionRange then "<"
  else "".

(** ** Bare versions *)

Definition isDigit (c : ascii) : bool :=
  let n := nat_of_ascii c in (48 <=? n) && (n <=? 57).

Definition isIdentChar (c : ascii) : bool :=
  let n := nat_of_ascii c in
  isDigit c || ((65 <=? n) && (n <=? 90)) || ((97 <=? n) && (n <=? 122))
  || bool_decide (n = 45) || bool_decide (n = 46) || bool_decide (n = 43).

Fixpoint dropDigits (s : string) : string :=
  match s with
  | String c s' => if isDigit c then dropDigits s' else s
  | EmptyString => s
  end.

(** A non-empty run of digits; returns what follows it. *)
Definition numericPart (s : string) : option string :=
  match s with
  | String c s' => if isDigit c then Some (dropDigits s') else None
  | EmptyString => None
  end.

Fixpoint allIdentChars (s : string) : bool :=
  match s with
  | EmptyString => true
  | String c s' => isIdentChar c && allIdentChars s'
  end.

(** What may follow MAJOR.MINOR.PATCH: nothing, or a pre-release or build
    tag introduced by a hyphen or a plus sign. *)
Definition versionTail (s : string) : bool :=
  match s with
  | EmptyString => true
  | String c t =>
      (bool_decide (c = "-"%char) || bool_decide (c = "+"%char))
      && negb (Str.eqb t "") && allIdentChars t
  end.

(** [validVersion v]: [v] is a bare semver version MAJOR.MINOR.PATCH with an
    optional pre-release or build tag (no operator, no leading [v]). *)
Definition validVersion (v : string) : bool :=
  match numericPart v with
  | Some (String "." r1) =>
      match numericPart r1 with
      | Some (String "." r2) =>
          match numericPart r2 with
          | Some r3 => versionTail r3
          | None => false
          end
      | _ => false
      end
  | _ => false
  end.

(** ** Rewriting one declared range *)

Definition PROTOCOL_PINNED : list string := ["link:"; "link:."; "file:"; "file:."].

Section RangeRewriter.

(** [Range text] stands for [new Range(text).range] of the semver package:
    [None] when the constructor throws, otherwise the normalised range,
    which is the empty string exactly for the ranges that match any
    version. *)
Variable Range : string → option string.

(** The body of the inner loop of [versionPackage], lines 28-45, as a
    function of the declared range and of the new version: [Ok None] is
    [continue] or the skipped assignment, [Ok (Some r)] is
    [deps[name] = r]. *)
Definition newRange (depCurrentVersion version : string) : Outcome (option string) :=
  if Str.eqb depCurrentVersion "" || Str.includes PROTOCOL_PINNED depCurrentVersion
  then Ok None
  else
    let usesWorkspaceRange := Str.startsWith "workspace:" depCurrentVersion in
    let depCurrentVersion :=
      if usesWorkspaceRange then Str.substr 10 depCurrentVersion
      else depCurrentVersion in
    match Range depCurrentVersion with
    | None => Throw (InvalidRange depCurrentVersion)
    | Some normalised =>
        if negb (Str.eqb normalised "") then
          let rangeType := getVersionRangeType depCurrentVersion in
          let newNewRange := rangeType +:+ version in
          let newNewRange :=
            if usesWorkspaceRange then "workspace:" +:+ newNewRange
            else newNewRange in
          Ok (Some newNewRange)
        else Ok None
    end.

(** The value of the dependency entry after the loop body ran on it. *)
Definition rewrite (r v : string) : Outcome string :=
  obind (newRange r v) (λ o, Ok (default r o)).

End RangeRewriter.

(** ** Manifests, releases and the object store *)

Inductive DependencyType :=
  | dependencies
  | devDependencies
  | peerDependencies
  | optionalDependencies.

Global Instance DependencyType_eq_dec : EqDecision DependencyType.
Proof. solve_decision. Defined.

Definition DEPENDENCY_TYPES : list DependencyType :=
  [dependencies; devDependencies; peerDependencies; optionalDependencies].

(** A [package.json]: the fields the code reads or writes, and [others] for
    every remaining field (kept as text). *)
Record PackageJSON := {
  name : string;
  version : string;
  pj_dependencies : option (gmap string string);
  pj_devDependencies : option (gmap string string);
  pj_peerDependencies : option (gmap string string);
  pj_optionalDependencies : option (gmap string string);
  others : list (string * string)
}.

(** [packageJson[type]] *)
Definition block (type : DependencyType) (pj : PackageJSON) : option (gmap string string) :=
  match type with
  | dependencies => pj_dependencies pj
  | devDependencies => pj_devDependencies pj
  | peerDependencies => pj_peerDependencies pj
  | optionalDependencies => pj_optionalDependencies pj
  end.

(** [packageJson.version = v] *)
Definition setVersion (v : string) (pj : PackageJSON) : PackageJSON :=
  {| name := name pj; version := v;
     pj_dependencies := pj_dependencies pj;
     pj_devDependencies := pj_devDependencies pj;
     pj_peerDependencies := pj_peerDependencies pj;
     pj_optionalDependencies := pj_optionalDependencies pj;
     others := others pj |}.

(** [packageJson[type][dep] = r], for a block that is present. *)
Definition setEntry (type : DependencyType) (dep r : string) (pj : PackageJSON) : PackageJSON :=
  let upd (t : DependencyType) :=
    if decide (t = type) then insert dep r <$> block t pj else block t pj in
  {| name := name pj; version := version pj;
     pj_dependencies := upd dependencies;
     pj_devDependencies := upd devDependencies;
     pj_peerDependencies := upd peerDependencies;
     pj_optionalDependencies := upd optionalDependencies;
     others := others pj |}.

(** Objects are identified by their address; a release refers to its
    manifest, it does not contain it. *)
Definition loc := nat.
Definition Store := loc → PackageJSON.

Definition write (l : loc) (pj : PackageJSON) (σ : Store) : Store :=
  λ l', if decide (l' = l) then pj else σ l'.

Record Release := {
  rel_name : string;
  rel_type : string;
  oldVersion : string;
  newVersion : string;
  changesets : list string;
  changelog : option string;
  packageJson : loc;
  dir : string
}.

Record VersionUpdate := { upd_name : string; upd_version : string }.

(** Computations that mutate the store and may throw; the store at the
    time of the throw is kept, as the mutations done so far persist. *)
Definition M (A : Type) := Store → Store * Outcome A.

Definition retM {A} (a : A) : M A := λ σ, (σ, Ok a).
Definition bindM {A B} (m : M A) (k : A → M B) : M B :=
  λ σ, match m σ with
       | (σ', Ok a) => k a σ'
       | (σ', Throw e) => (σ', Throw e)
       end.
Definition readM (l : loc) : M PackageJSON := λ σ, (σ, Ok (σ l)).
Definition modifyM (l : loc) (f : PackageJSON → PackageJSON) : M unit :=
  λ σ, (write l (f (σ l)) σ, Ok tt).
Definition liftM {A} (o : Outcome A) : M A := λ σ, (σ, o).

Global Instance M_ret : MRet M := @retM.
Global Instance M_bind : MBind M := λ A B k m, bindM m k.

(** [for (let x of xs) body(x)] *)
Fixpoint forEach {A} (xs : list A) (body : A → M unit) : M unit :=
  match xs with
  | [] => retM tt
  | x :: rest => body x ;; forEach rest body
  end.

(** A dependency block is a plain object, so [deps[name]] reads through the
    prototype chain: for a name the block does not declare it finds the
    member of [Object.prototype] of that name, if there is one. *)
Definition OBJECT_PROTOTYPE : list string :=
  ["constructor"; "__defineGetter__"; "__defineSetter__"; "hasOwnProperty";
   "__lookupGetter__"; "__lookupSetter__"; "isPrototypeOf"; "propertyIsEnumerable";
   "toString"; "valueOf"; "__proto__"; "toLocaleString"].

(** What [deps[name]] is: the declared range, a member of the prototype (a
    function or, for [__proto__], the prototype itself: truthy, and not a
    string), or [undefined]. *)
Inductive Property :=
  | Declared (range : string)
  | Inherited
  | Undefined.

Definition getProperty (deps : gmap string string) (name : string) : Property :=
  match deps !! name with
  | Some range => Declared range
  | None => if Str.includes OBJECT_PROTOTYPE name then Inherited else Undefined
  end.

Section VersionPackage.

Variable Range : string → option string.

(** One iteration of the inner loop: the update [u] applied to the
    [type] block of the manifest at [l]. A member of the prototype passes
    the test of line 29 and has no [startsWith]: line 30 throws. *)
Definition updateDep (l : loc) (type : DependencyType) (u : VersionUpdate) : M unit :=
  pj ← readM l;
  match block type pj with
  | None => retM tt
  | Some deps =>
      match getProperty deps (upd_name u) with
      | Undefined => retM tt
      | Inherited => liftM (Throw TypeError)
      | Declared depCurrentVersion =>
          o ← liftM (newRange Range depCurrentVersion (upd_version u));
          match o with
          | None => retM tt
          | Some newNewRange => modifyM l (setEntry type (upd_name u) newNewRange)
          end
      end
  end.

Definition updateBlock (l : loc) (versionsToUpdate : list VersionUpdate)
    (type : DependencyType) : M unit :=
  pj ← readM l;
  match block type pj with
  | Some _ => forEach versionsToUpdate (updateDep l type)
  | None => retM tt
  end.

Definition versionPackage (release : Release)
    (versionsToUpdate : list VersionUpdate) : M Release :=
  let l := packageJson release in
  modifyM l (setVersion (newVersion release));;
  forEach DEPENDENCY_TYPES (updateBlock l versionsToUpdate);;
  retM release.

End VersionPackage.

(** ** JSON values and the raw configuration *)

#[local] Unset Elimination Schemes.
Inductive JSON :=
  | JNull
  | JBool (b : bool)
  | JNumber (n : Z)
  | JString (s : string)
  | JArray (items : list JSON)
  | JObject (fields : list (string * JSON)).
#[local] Set Elimination Schemes.

(** The truthiness of a JSON value in a condition. Of a number only
    whether it is zero matters here. *)
Definition truthy (v : JSON) : bool :=
  match v with
  | JNull => false
  | JBool b => b
  | JNumber n => negb (bool_decide (n = 0%Z))
  | JString s => negb (Str.eqb s "")
  | JArray _ | JObject _ => true
  end.

Definition isString (v : JSON) : bool :=
  match v with JString _ => true | _ => false end.

Definition isBoolean (v : JSON) : bool :=
  match v with JBool _ => true | _ => false end.

(** [v === s] for a string [s] *)
Definition isTheString (s : string) (v : JSON) : bool :=
  match v with JString s' => Str.eqb s' s | _ => false end.

Definition stringOf (v : JSON) : option string :=
  match v with JString s => Some s | _ => None end.

(** [isArray(v) && v.every(x => typeof x === "string")], with the strings. *)
Definition asStrings (v : JSON) : option (list string) :=
  match v with
  | JArray items => mapM stringOf items
  | _ => None
  end.

(** [isArray(v) && v.every(arr => Array.isArray(arr) && arr.every(...))] *)
Definition asGroups (v : JSON) : option (list (list string)) :=
  match v with
  | JArray items => mapM asStrings items
  | _ => None
  end.

Fixpoint assoc (k : string) (fields : list (string * JSON)) : option JSON :=
  match fields with
  | [] => None
  | (k', v) :: rest => if decide (k' = k) then Some v else assoc k rest
  end.

(** [v.k] for a property [k] that only a plain object can have: reading it
    off [null] throws, off any other non-object it is [undefined]. *)
Definition prop (k : string) (v : JSON) : Outcome (option JSON) :=
  match v with
  | JNull => Throw TypeError
  | JObject fields => Ok (assoc k fields)
  | _ => Ok None
  end.

Global Instance Outcome_ret : MRet Outcome := @Ok.
Global Instance Outcome_bind : MBind Outcome := λ A B k o, obind o k.

(** The raw configuration as read from [.changeset/config.json]: a missing
    field is [undefined]. The [$schema] field is never read. *)
Module WrittenConfig.
Record t := {
  changelog : option JSON;
  commit : option JSON;
  linked : option JSON;
  access : option JSON;
  baseBranch : option JSON;
  updateInternalDependencies : option JSON;
  ignore : option JSON;
  bumpVersionsWithWorkspaceProtocolOnly : option JSON;
  ___experimentalUnsafeOptions_WILL_CHANGE_IN_PATCH : option JSON
}.
End WrittenConfig.

(** The validated configuration. Fields that [parse] copies from the raw
    configuration hold the JSON value that passed the checks. *)
Module Config.
Record Experimental := {
  onlyUpdatePeerDependentsWhenOutOfRange : JSON;
  useCalculatedVersionForSnapshots : JSON
}.
Record t := {
  changelog : JSON;
  access : JSON;
  commit : JSON;
  linked : list (list string);
  baseBranch : JSON;
  updateInternalDependencies : JSON;
  ignore : list string;
  bumpVersionsWithWorkspaceProtocolOnly : bool;
  ___experimentalUnsafeOptions_WILL_CHANGE_IN_PATCH : Experimental
}.
End Config.

(** The package graph of @manypkg/get-packages. *)
Module Workspace.
Record Package := { dir : string; packageJson : PackageJSON }.
Record Packages := { root : Package; tool : string; packages : list Package }.
End Workspace.

(** ** Sets in insertion order *)

(** A JavaScript [Set] of strings: [forEach] visits in insertion order. *)
Definition setAdd (x : string) (s : list string) : list string :=
  if bool_decide (x ∈ s) then s else s ++ [x].

(** ** Violation messages *)

Definition q : string := String "034"%char EmptyString.
Definition nl : string := String "010"%char EmptyString.

Definition nonExistingLinkedMessage (nonExistingPkgName : string) : string :=
  "The package or glob expression " +:+ q +:+ nonExistingPkgName +:+ q +:+
  " specified in the `linked` option does not match any package in the project. You may have misspelled the package name or provided an invalid glob expression. Note that glob expressions must be defined according to https://www.npmjs.com/package/micromatch.".

Definition duplicatedMessage (pkgName : string) : string :=
  "The package " +:+ q +:+ pkgName +:+ q +:+
  " is defined in multiple sets of linked packages. Packages can only be defined in a single set of linked packages. If you are using glob expressions, make sure that they are valid according to https://www.npmjs.com/package/micromatch.".

Definition nonExistingIgnoreMessage (nonExistingPkgName : string) : string :=
  "The package or glob expression " +:+ q +:+ nonExistingPkgName +:+ q +:+
  " is specified in the `ignore` option but it is not found in the project. You may have misspelled the package name or provided an invalid glob expression. Note that glob expressions must be defined according to https://www.npmjs.com/package/micromatch.".

Definition dependentMessage (dependent ignoredPackage : string) : string :=
  "The package " +:+ q +:+ dependent +:+ q +:+
  " depends on the ignored package " +:+ q +:+ ignoredPackage +:+ q +:+
  ", but " +:+ q +:+ dependent +:+ q +:+
  " is not being ignored. Please add " +:+ q +:+ dependent +:+ q +:+
  " to the `ignore` option.".

Definition validationHeader : string :=
  "Some errors occurred when validating the changesets config:" +:+ nl.

Definition privateAccessWarning : string :=
  "The `access` option is set as " +:+ q +:+ "private" +:+ q +:+
  ", but this is actually not a valid value - the correct form is " +:+
  q +:+ "restricted" +:+ q +:+ ".".

(** ** The written defaults *)


Definition getNormalisedChangelogOption (thing : JSON) : JSON :=
  match thing with
  | JBool false => JBool false
  | JString s => JArray [JString s; JNull]
  | _ => thing
  end.

(** ** Array methods whose callback may throw *)

Module Arr.

(** [xs.some(f)]: stops at the first element that [f] accepts. *)
Fixpoint some {A} (f : A → Outcome bool) (xs : list A) : Outcome bool :=
  match xs with
  | [] => Ok false
  | x :: rest => b ← f x; if b : bool then Ok true else some f rest
  end.

(** [xs.filter(f)] *)
Fixpoint filter {A} (f : A → Outcome bool) (xs : list A) : Outcome (list A) :=
  match xs with
  | [] => Ok []
  | x :: rest =>
      b ← f x; kept ← filter f rest; Ok (if b : bool then x :: kept else kept)
  end.

(** [xs.map(f)] *)
Fixpoint map {A B} (f : A → Outcome B) (xs : list A) : Outcome (list B) :=
  match xs with
  | [] => Ok []
  | x :: rest => y ← f x; ys ← map f rest; Ok (y :: ys)
  end.

(** [for (let x of xs) state = body(state, x)] *)
Fixpoint forOf {A S} (body : S → A → Outcome S) (state : S) (xs : list A) : Outcome S :=
  match xs with
  | [] => Ok state
  | x :: rest => state ← body state x; forOf body state rest
  end.

End Arr.

(** ** Validation *)

(** The collaborators of [parse] that are not part of the sources at hand:
    [JSON.stringify(v, null, 2)], [micromatch.isMatch(name, pattern)],
    [micromatch(names, patterns)] and [getDependentsGraph(packages).get(name)].
    The two entry points of micromatch may throw: the library does on a
    pattern it refuses, the empty string for one. *)
Class Collaborators := {
  stringify : JSON → string;
  isMatch : string → string → Outcome bool;
  micromatch : list string → list string → Outcome (list string);
  getDependentsGraph : Workspace.Packages → string → option (list string)
}.

Section Parse.

Context {lib : Collaborators}.

Definition normalizePackageNames (listOfPackageNamesOrGlob pkgNames : list string)
    : Outcome (list string * list string) :=
  matchingPackages ← micromatch pkgNames listOfPackageNamesOrGlob;
  nonExistingPackages ←
    Arr.filter (λ pkgNameOrGlob,
                  matched ← Arr.some (λ pkgName, isMatch pkgName pkgNameOrGlob) pkgNames;
                  Ok (negb matched))
               listOfPackageNamesOrGlob;
  Ok (matchingPackages, nonExistingPackages).

Definition pkgNamesOf (packages : Workspace.Packages) : list string :=
  map (λ p, name (Workspace.packageJson p)) (Workspace.packages packages).

(** *** Shape checks, in source order *)

Definition changelogValid (v : JSON) : bool :=
  match v with
  | JBool false => true
  | JString _ => true
  | JArray [JString _; _] => true
  | _ => false
  end.

Definition changelogMessages (json : WrittenConfig.t) : list string :=
  match WrittenConfig.changelog json with
  | Some v =>
      if changelogValid v then []
      else ["The `changelog` option is set as " +:+ stringify v +:+
            " when the only valid values are undefined, a module path(e.g. " +:+
            q +:+ "@changesets/cli/changelog" +:+ q +:+ " or " +:+
            q +:+ "./some-module" +:+ q +:+
            ") or a tuple with a module path and config for the changelog generator(e.g. [" +:+
            q +:+ "@changesets/cli/changelog" +:+ q +:+ ", { someOption: true }])"]
  | None => []
  end.

Definition normalizedAccess (json : WrittenConfig.t) : option JSON :=
  match WrittenConfig.access json with
  | Some v => if isTheString "private" v then Some (JString "restricted") else Some v
  | None => None
  end.

(** What [warn] is called with; the logger is a side channel that does not
    influence the result. *)
Definition warnings (json : WrittenConfig.t) : list string :=
  match WrittenConfig.access json with
  | Some v => if isTheString "private" v then [privateAccessWarning] else []
  | None => []
  end.

Definition accessMessages (json : WrittenConfig.t) : list string :=
  match normalizedAccess json with
  | Some v =>
      if isTheString "restricted" v || isTheString "public" v then []
      else ["The `access` option is set as " +:+ stringify v +:+
            " when the only valid values are undefined, " +:+
            q +:+ "public" +:+ q +:+ " or " +:+ q +:+ "restricted" +:+ q]
  | None => []
  end.

Definition commitMessages (json : WrittenConfig.t) : list string :=
  match WrittenConfig.commit json with
  | Some v =>
      if isBoolean v then []
      else ["The `commit` option is set as " +:+ stringify v +:+
            " when the only valid values are undefined or a boolean"]
  | None => []
  end.

Definition baseBranchMessages (json : WrittenConfig.t) : list string :=
  match WrittenConfig.baseBranch json with
  | Some v =>
      if isString v then []
      else ["The `baseBranch` option is set as " +:+ stringify v +:+
            " but the `baseBranch` option can only be set as a string"]
  | None => []
  end.

(** *** Linked groups *)

(** The inner loop over one resolved group: the sets [foundPkgNames] and
    [duplicatedPkgNames]. *)
Definition scanGroup (normalizedLinkedGroup : list string)
    (sets : list string * list string) : list string * list string :=
  foldl (λ '(foundPkgNames, duplicatedPkgNames) linkedPkgName,
           (setAdd linkedPkgName foundPkgNames,
            if bool_decide (linkedPkgName ∈ foundPkgNames)
            then setAdd linkedPkgName duplicatedPkgNames
            else duplicatedPkgNames))
        sets normalizedLinkedGroup.

(** One iteration of the loop over the groups, lines 207-224; the state is
    the two sets and the messages pushed so far. *)
Definition scanLinkedGroup (pkgNames : list string)
    (state : list string * list string * list string) (linkedGroup : list string)
    : Outcome (list string * list string * list string) :=
  let '(foundPkgNames, duplicatedPkgNames, messages) := state in
  '(normalizedLinkedGroup, nonExistingPackages) ←
    normalizePackageNames linkedGroup pkgNames;
  let '(foundPkgNames, duplicatedPkgNames) :=
    scanGroup normalizedLinkedGroup (foundPkgNames, duplicatedPkgNames) in
  Ok (foundPkgNames, duplicatedPkgNames,
      messages ++ map nonExistingLinkedMessage nonExistingPackages).

Definition scanLinked (pkgNames : list string) (groups : list (list string))
    : Outcome (list string * list string * list string) :=
  Arr.forOf (scanLinkedGroup pkgNames) ([], [], []) groups.

(** The messages that the check of [linked] pushes, lines 185-234. *)
Definition linkedMessages (json : WrittenConfig.t) (pkgNames : list string)
    : Outcome (list string) :=
  match WrittenConfig.linked json with
  | Some v =>
      match asGroups v with
      | None =>
          Ok ["The `linked` option is set as " +:+ stringify v +:+
              " when the only valid values are undefined or an array of arrays of package names"]
      | Some groups =>
          '(_, duplicatedPkgNames, messages) ← scanLinked pkgNames groups;
          Ok (messages ++ map duplicatedMessage duplicatedPkgNames)
      end
  | None => Ok []
  end.

Definition updateInternalDependenciesMessages (json : WrittenConfig.t) : list string :=
  match WrittenConfig.updateInternalDependencies json with
  | Some v =>
      if isTheString "patch" v || isTheString "minor" v then []
      else ["The `updateInternalDependencies` option is set as " +:+ stringify v +:+
            " but can only be 'patch' or 'minor'"]
  | None => []
  end.

(** *** The ignore list *)

(** The loop of lines 276-285 over the raw list. *)
Definition dependentsMessages (packages : Workspace.Packages)
    (ignore : list string) : list string :=
  let dependentsGraph := getDependentsGraph packages in
  flat_map (λ ignoredPackage,
              let dependents := default [] (dependentsGraph ignoredPackage) in
              flat_map (λ dependent,
                          if negb (Str.includes ignore dependent)
                          then [dependentMessage dependent ignoredPackage]
                          else [])
                       dependents)
           ignore.

(** The messages that the check of [ignore] pushes, lines 247-287. *)
Definition ignoreMessages (json : WrittenConfig.t)
    (packages : Workspace.Packages) (pkgNames : list string) : Outcome (list string) :=
  match WrittenConfig.ignore json with
  | Some v =>
      if truthy v then
        match asStrings v with
        | None =>
            Ok ["The `ignore` option is set as " +:+ stringify v +:+
                " when the only valid values are undefined or an array of package names"]
        | Some ignore =>
            '(_, nonExistingPackages) ← normalizePackageNames ignore pkgNames;
            Ok (map nonExistingIgnoreMessage nonExistingPackages
                ++ dependentsMessages packages ignore)
        end
      else Ok []
  | None => Ok []
  end.

(** *** Experimental flags *)

Definition flagMessages (flag : string) (v : option JSON) : list string :=
  match v with
  | Some v =>
      if isBoolean v then []
      else ["The `" +:+ flag +:+ "` option is set as " +:+ stringify v +:+
            " when the only valid values are undefined or a boolean"]
  | None => []
  end.

(** Destructuring the experimental options throws when they are [null]. *)
Definition experimentalMessages (json : WrittenConfig.t) : Outcome (list string) :=
  match WrittenConfig.___experimentalUnsafeOptions_WILL_CHANGE_IN_PATCH json with
  | Some options =>
      onlyUpdatePeerDependentsWhenOutOfRange ←
        prop "onlyUpdatePeerDependentsWhenOutOfRange" options;
      useCalculatedVersionForSnapshots ←
        prop "useCalculatedVersionForSnapshots" options;
      Ok (flagMessages "onlyUpdatePeerDependentsWhenOutOfRange"
            onlyUpdatePeerDependentsWhenOutOfRange
          ++ flagMessages "useCalculatedVersionForSnapshots"
               useCalculatedVersionForSnapshots)
  | None => Ok []
  end.

(** The messages pushed up to line 288, in order. What micromatch throws
    while a group or the ignore list is resolved ends the pass, and the
    messages pushed before are lost with it. *)
Definition checkedMessages (json : WrittenConfig.t)
    (packages : Workspace.Packages) : Outcome (list string) :=
  let pkgNames := pkgNamesOf packages in
  let messages :=
    changelogMessages json
    ++ accessMessages json
    ++ commitMessages json
    ++ baseBranchMessages json in
  linked ← linkedMessages json pkgNames;
  let messages := messages ++ linked ++ updateInternalDependenciesMessages json in
  ignore ← ignoreMessages json packages pkgNames;
  Ok (messages ++ ignore).

(** The whole validation pass: [messages] as it stands at line 319. *)
Definition collect (json : WrittenConfig.t)
    (packages : Workspace.Packages) : Outcome (list string) :=
  messages ← checkedMessages json packages;
  experimental ← experimentalMessages json;
  Ok (messages ++ experimental).

(** *** The normalised configuration, lines 326-378 *)

Definition experimentalFlag (json : WrittenConfig.t) (flag : string) : Outcome JSON :=
  match WrittenConfig.___experimentalUnsafeOptions_WILL_CHANGE_IN_PATCH json with
  | None => Ok (JBool false)
  | Some options => v ← prop flag options; Ok (default (JBool false) v)
  end.

(** [json.linked.map(...)] and [normalizePackageNames(json.ignore, ...)] fail
    with a TypeError on a value that is not an array. *)
Definition build (json : WrittenConfig.t) (pkgNames : list string) : Outcome Config.t :=
  linked ←
    match WrittenConfig.linked json with
    | None => Ok []
    | Some v =>
        match asGroups v with
        | Some groups =>
            Arr.map (λ linkedGroup,
                       resolved ← normalizePackageNames linkedGroup pkgNames;
                       Ok resolved.1)
                    groups
        | None => Throw TypeError
        end
    end;
  ignore ←
    match WrittenConfig.ignore json with
    | None => Ok []
    | Some v =>
        match asStrings v with
        | Some ignore =>
            resolved ← normalizePackageNames ignore pkgNames;
            Ok resolved.1
        | None => Throw TypeError
        end
    end;
  onlyUpdatePeerDependentsWhenOutOfRange ←
    experimentalFlag json "onlyUpdatePeerDependentsWhenOutOfRange";
  useCalculatedVersionForSnapshots ←
    experimentalFlag json "useCalculatedVersionForSnapshots";
  Ok {|
    Config.changelog :=
      getNormalisedChangelogOption
        (default (JString "@changesets/cli/changelog") (WrittenConfig.changelog json));
    Config.access := default (JString "restricted") (normalizedAccess json);
    Config.commit := default (JBool false) (WrittenConfig.commit json);
    Config.linked := linked;
    Config.baseBranch := default (JString "master") (WrittenConfig.baseBranch json);
    Config.updateInternalDependencies :=
      default (JString "patch") (WrittenConfig.updateInternalDependencies json);
    Config.ignore := ignore;
    Config.bumpVersionsWithWorkspaceProtocolOnly :=
      match WrittenConfig.bumpVersionsWithWorkspaceProtocolOnly json with
      | Some (JBool true) => true
      | _ => false
      end;
    Config.___experimentalUnsafeOptions_WILL_CHANGE_IN_PATCH := {|
      Config.onlyUpdatePeerDependentsWhenOutOfRange :=
        onlyUpdatePeerDependentsWhenOutOfRange;
      Config.useCalculatedVersionForSnapshots := useCalculatedVersionForSnapshots
    |}
  |}.

Definition parse (json : WrittenConfig.t) (packages : Workspace.Packages) : Outcome Config.t :=
  messages ← collect json packages;
  match messages with
  | [] => build json (pkgNamesOf packages)
  | _ :: _ => Throw (ValidationError (validationHeader +:+ Str.join nl messages))
  end.

Definition fakePackage : Workspace.Package := {|
  Workspace.dir := "";
  Workspace.packageJson := {|
    name := ""; version := "";
    pj_dependencies := None; pj_devDependencies := None;
    pj_peerDependencies := None; pj_optionalDependencies := None;
    others := []
  |}
|}.


(** Every group of [groups], resolved, in order: the pair that
    [normalizePackageNames] returns for each. *)
Definition resolveGroups (pkgNames : list string) (groups : list (list string))
    : Outcome (list (list string * list string)) :=
  Arr.map (λ linkedGroup, normalizePackageNames linkedGroup pkgNames) groups.

(** Two different groups resolve to the name [n]. *)
Definition inTwoGroups (pkgNames : list string) (groups : list (list string))
    (n : string) : Prop :=
  ∃ (i j : nat) (gi gj mi mj : list string),
    i ≠ j ∧ groups !! i = Some gi ∧ groups !! j = Some gj
    ∧ micromatch pkgNames gi = Ok mi ∧ micromatch pkgNames gj = Ok mj
    ∧ n ∈ mi ∧ n ∈ mj.

End Parse.

(** The names of all resolved groups, in order. *)
Definition resolvedNames (resolved : list (list string * list string)) : list string :=
  concat resolved.*1.

(** The patterns of each group that match no package, as messages. *)
Definition unmatchedLinked (resolved : list (list string * list string)) : list string :=
  concat ((λ r : list string * list string, nonExistingLinkedMessage <$> r.2)
            <$> resolved).

(** [o] is a value: nothing was thrown. *)
Definition returns {A} (o : Outcome A) : Prop := ∃ a, o = Ok a.

(** [r] with the workspace marker removed, line 30-33. *)
Definition workspaceInner (r : string) : string :=
  if Str.startsWith "workspace:" r then Str.substr 10 r else r.

(** [packageJson[type][dep]], when the block is there. *)
Definition entry (type : DependencyType) (dep : string) (pj : PackageJSON)
    : option string :=
  block type pj ≫= (λ deps, deps !! dep).

(** [packageJson[type][dep]] is a member of the prototype: the block is
    there, declares no [dep], and [dep] names a property of
    [Object.prototype]. *)
Definition readsPrototype (type : DependencyType) (dep : string) (pj : PackageJSON)
    : bool :=
  match block type pj with
  | Some deps => bool_decide (deps !! dep = None) && Str.includes OBJECT_PROTOTYPE dep
  | None => false
  end.

(** What a declared range is rewritten to when it is rewritten. *)
Definition rewritten (r v : string) : string :=
  (if Str.startsWith "workspace:" r then "workspace:" else "")
  +:+ getVersionRangeType (workspaceInner r) +:+ v.


(** How often [x] occurs in [l]. *)
Definition occurrences (x : string) (l : list string) : nat :=
  length (filter (λ m, m = x) l).

(** [x] occurs at two places of [l]. *)
Definition twice (x : string) (l : list string) : Prop :=
  ∃ l1 l2 l3, l = l1 ++ x :: l2 ++ x :: l3.

(** [json] with its [ignore] and its
    [bumpVersionsWithWorkspaceProtocolOnly] field replaced. *)
Definition withIgnore (v : option JSON) (json : WrittenConfig.t) : WrittenConfig.t := {|
  WrittenConfig.changelog := WrittenConfig.changelog json;
  WrittenConfig.commit := WrittenConfig.commit json;
  WrittenConfig.linked := WrittenConfig.linked json;
  WrittenConfig.access := WrittenConfig.access json;
  WrittenConfig.baseBranch := WrittenConfig.baseBranch json;
  WrittenConfig.updateInternalDependencies := WrittenConfig.updateInternalDependencies json;
  WrittenConfig.ignore := v;
  WrittenConfig.bumpVersionsWithWorkspaceProtocolOnly :=
    WrittenConfig.bumpVersionsWithWorkspaceProtocolOnly json;
  WrittenConfig.___experimentalUnsafeOptions_WILL_CHANGE_IN_PATCH :=
    WrittenConfig.___experimentalUnsafeOptions_WILL_CHANGE_IN_PATCH json
|}.

Definition withBump (v : option JSON) (json : WrittenConfig.t) : WrittenConfig.t := {|
  WrittenConfig.changelog := WrittenConfig.changelog json;
  WrittenConfig.commit := WrittenConfig.commit json;
  WrittenConfig.linked := WrittenConfig.linked json;
  WrittenConfig.access := WrittenConfig.access json;
  WrittenConfig.baseBranch := WrittenConfig.baseBranch json;
  WrittenConfig.updateInternalDependencies := WrittenConfig.updateInternalDependencies json;
  WrittenConfig.ignore := WrittenConfig.ignore json;
  WrittenConfig.bumpVersionsWithWorkspaceProtocolOnly := v;
  WrittenConfig.___experimentalUnsafeOptions_WILL_CHANGE_IN_PATCH :=
    WrittenConfig.___experimentalUnsafeOptions_WILL_CHANGE_IN_PATCH json
|}.

Definition withLinked (v : option JSON) (json : WrittenConfig.t) : WrittenConfig.t := {|
  WrittenConfig.changelog := WrittenConfig.changelog json;
  WrittenConfig.commit := WrittenConfig.commit json;
  WrittenConfig.linked := v;
  WrittenConfig.access := WrittenConfig.access json;
  WrittenConfig.baseBranch := WrittenConfig.baseBranch json;
  WrittenConfig.updateInternalDependencies := WrittenConfig.updateInternalDependencies json;
  WrittenConfig.ignore := WrittenConfig.ignore json;
  WrittenConfig.bumpVersionsWithWorkspaceProtocolOnly :=
    WrittenConfig.bumpVersionsWithWorkspaceProtocolOnly json;
  WrittenConfig.___experimentalUnsafeOptions_WILL_CHANGE_IN_PATCH :=
    WrittenConfig.___experimentalUnsafeOptions_WILL_CHANGE_IN_PATCH json
|}.

Definition withAccess (v : option JSON) (json : WrittenConfig.t) : WrittenConfig.t := {|
  WrittenConfig.changelog := WrittenConfig.changelog json;
  WrittenConfig.commit := WrittenConfig.commit json;
  WrittenConfig.linked := WrittenConfig.linked json;
  WrittenConfig.access := v;
  WrittenConfig.baseBranch := WrittenConfig.baseBranch json;
  WrittenConfig.updateInternalDependencies := WrittenConfig.updateInternalDependencies json;
  WrittenConfig.ignore := WrittenConfig.ignore json;
  WrittenConfig.bumpVersionsWithWorkspaceProtocolOnly :=
    WrittenConfig.bumpVersionsWithWorkspaceProtocolOnly json;
  WrittenConfig.___experimentalUnsafeOptions_WILL_CHANGE_IN_PATCH :=
    WrittenConfig.___experimentalUnsafeOptions_WILL_CHANGE_IN_PATCH json
|}.

Definition withExperimental (v : option JSON) (json : WrittenConfig.t) : WrittenConfig.t := {|
  WrittenConfig.changelog := WrittenConfig.changelog json;
  WrittenConfig.commit := WrittenConfig.commit json;
  WrittenConfig.linked := WrittenConfig.linked json;
  WrittenConfig.access := WrittenConfig.access json;
  WrittenConfig.baseBranch := WrittenConfig.baseBranch json;
  WrittenConfig.updateInternalDependencies := WrittenConfig.updateInternalDependencies json;
  WrittenConfig.ignore := WrittenConfig.ignore json;
  WrittenConfig.bumpVersionsWithWorkspaceProtocolOnly :=
    WrittenConfig.bumpVersionsWithWorkspaceProtocolOnly json;
  WrittenConfig.___experimentalUnsafeOptions_WILL_CHANGE_IN_PATCH := v
|}.

(** [v] is a plain object. *)
Definition isObject (v : JSON) : bool :=
  match v with JObject _ => true | _ => false end.

(** The configuration file with no field set. *)
Definition emptyWrittenConfig : WrittenConfig.t := {|
  WrittenConfig.changelog := None;
  WrittenConfig.commit := None;
  WrittenConfig.linked := None;
  WrittenConfig.access := None;
  WrittenConfig.baseBranch := None;
  WrittenConfig.updateInternalDependencies := None;
  WrittenConfig.ignore := None;
  WrittenConfig.bumpVersionsWithWorkspaceProtocolOnly := None;
  WrittenConfig.___experimentalUnsafeOptions_WILL_CHANGE_IN_PATCH := None
|}.

(** The configuration every unset field defaults to. *)
Definition fallbackConfig : Config.t := {|
  Config.changelog := JArray [JString "@changesets/cli/changelog"; JNull];
  Config.access := JString "restricted";
  Config.commit := JBool false;
  Config.linked := [];
  Config.baseBranch := JString "master";
  Config.updateInternalDependencies := JString "patch";
  Config.ignore := [];
  Config.bumpVersionsWithWorkspaceProtocolOnly := false;
  Config.___experimentalUnsafeOptions_WILL_CHANGE_IN_PATCH := {|
    Config.onlyUpdatePeerDependentsWhenOutOfRange := JBool false;
    Config.useCalculatedVersionForSnapshots := JBool false
  |}
|}.

(** The characters of a string. *)
Fixpoint chars (s : string) : list ascii :=
  match s with
  | EmptyString => []
  | String c s' => c :: chars s'
  end.

(** No other message is the message about a duplicated name. *)
Definition notDuplicated (m : string) : Prop := ∀ n, m ≠ duplicatedMessage n.

(** What the loops of [versionPackage] leave alone in a manifest: all of it
    but the entries named in [names]. *)
Definition sameOutside (names : list string) (pj pj' : PackageJSON) : Prop :=
  name pj' = name pj
  ∧ version pj' = version pj
  ∧ others pj' = others pj
  ∧ ∀ type : DependencyType,
      dom <$> block type pj' = dom <$> block type pj
      ∧ ∀ dep : string, dep ∉ names →
          block type pj' ≫= (λ deps, deps !! dep) = block type pj ≫= (λ deps, deps !! dep).

(** The same for stores: only the object at [l] may differ, and only there. *)
Definition frame (l : loc) (names : list string) (σ σ' : Store) : Prop :=
  (∀ l' : loc, l' ≠ l → σ' l' = σ l') ∧ sameOutside names (σ l) (σ' l).

(** ** Concrete collaborators for the examples

    Small executable stand-ins for the libraries the code calls. They cover
    the fragment the examples use and agree with the libraries there. *)

Module Fixture.

(** The operator of a single comparator, removed. *)
Definition stripOperator (s : string) : string :=
  if Str.startsWith ">=" s || Str.startsWith "<=" s then Str.substr 2 s
  else if Str.startsWith "^" s || Str.startsWith "~" s || Str.startsWith ">" s
          || Str.startsWith "<" s || Str.startsWith "=" s then Str.substr 1 s
  else s.

(** semver's [new Range(text).range] on single comparators: the wildcards
    and the empty text normalise to the empty range, an operator followed by
    a version is accepted, anything else is refused. For an accepted
    comparator the text itself stands for the normal form, of which the
    rewriter only asks whether it is empty. *)
Definition Range (text : string) : option string :=
  if Str.includes [""; "*"; "x"; "X"] text then Some ""
  else if validVersion (stripOperator text) then Some text
  else None.

(** Globs with literal characters and the star, which stands for any run
    of characters other than the slash. *)
Fixpoint glob (pattern : string) : string → bool :=
  match pattern with
  | EmptyString => λ s, Str.eqb s ""
  | String p pattern' =>
      if bool_decide (p = "*"%char) then
        fix star (s : string) : bool :=
          glob pattern' s
          || match s with
             | String c s' => negb (bool_decide (c = "/"%char)) && star s'
             | EmptyString => false
             end
      else
        λ s, match s with
             | String c s' => bool_decide (c = p) && glob pattern' s'
             | EmptyString => false
             end
  end.

(** micromatch refuses the empty pattern with a TypeError. *)
Definition isMatch (pkgName pattern : string) : Outcome bool :=
  if Str.eqb pattern "" then Throw TypeError else Ok (glob pattern pkgName).

(** A pattern with no star in it. *)
Fixpoint plain (pattern : string) : bool :=
  match pattern with
  | EmptyString => true
  | String p pattern' => negb (bool_decide (p = "*"%char)) && plain pattern'
  end.

(** micromatch keeps, pattern after pattern, the items that match, each
    once; it compiles every pattern, and so throws on a list that holds the
    empty one, whatever the items. *)
Definition micromatch (items patterns : list string) : Outcome (list string) :=
  if Str.includes patterns "" then Throw TypeError
  else Ok (foldl (λ keep pattern,
                    foldl (λ keep item,
                             if glob pattern item then setAdd item keep else keep)
                          keep items)
                 [] patterns).

Definition declares (dep : string) (pkg : Workspace.Package) : bool :=
  existsb (λ type,
             match block type (Workspace.packageJson pkg) with
             | Some deps => bool_decide (is_Some (deps !! dep))
             | None => false
             end)
          DEPENDENCY_TYPES.

(** Modelled from the spec: [getDependentsGraph] of
    @changesets/get-dependents-graph is not part of the sources at hand. It
    maps each package, the root included, to the packages of the repository
    that declare a dependency on it, and has no entry for other names. *)
Definition getDependentsGraph (packages : Workspace.Packages)
    (pkgName : string) : option (list string) :=
  if Str.includes (name (Workspace.packageJson (Workspace.root packages))
                   :: pkgNamesOf packages) pkgName then
    Some (map (λ p, name (Workspace.packageJson p))
              (filter (λ p, declares pkgName p = true) (Workspace.packages packages)))
  else None.

(** [JSON.stringify(v, null, 2)], without escapes inside strings. *)
Fixpoint stringifyAt (indent : string) (v : JSON) {struct v} : string :=
  let inner := indent +:+ "  " in
  let sep := "," +:+ nl +:+ inner in
  match v with
  | JNull => "null"
  | JBool true => "true"
  | JBool false => "false"
  | JNumber n => pretty n
  | JString s => q +:+ s +:+ q
  | JArray [] => "[]"
  | JArray items =>
      "[" +:+ nl +:+ inner +:+ Str.join sep (map (stringifyAt inner) items)
      +:+ nl +:+ indent +:+ "]"
  | JObject [] => "{}"
  | JObject fields =>
      "{" +:+ nl +:+ inner
      +:+ Str.join sep
            (map (λ kv, q +:+ kv.1 +:+ q +:+ ": " +:+ stringifyAt inner kv.2) fields)
      +:+ nl +:+ indent +:+ "}"
  end.

Definition stringify (v : JSON) : string := stringifyAt "" v.

Definition collaborators : Collaborators :=
  Build_Collaborators stringify isMatch micromatch getDependentsGraph.

Definition parse : WrittenConfig.t → Workspace.Packages → Outcome Config.t :=
  @parse collaborators.

Definition collect : WrittenConfig.t → Workspace.Packages → Outcome (list string) :=
  @collect collaborators.

(** A manifest with nothing but a name, a version and its dependencies. *)
Definition manifest (n v : string) (deps : option (gmap string string)) : PackageJSON := {|
  name := n; version := v;
  pj_dependencies := deps; pj_devDependencies := None;
  pj_peerDependencies := None; pj_optionalDependencies := None;
  others := []
|}.

Definition workspaceOf (manifests : list PackageJSON) : Workspace.Packages := {|
  Workspace.root := fakePackage;
  Workspace.tool := "yarn";
  Workspace.packages :=
    map (λ pj, {| Workspace.dir := name pj; Workspace.packageJson := pj |}) manifests
|}.

(** Two packages, the second of which depends on the first. *)
Definition twoPackages : Workspace.Packages :=
  workspaceOf [manifest "pkg-a" "1.0.0" None;
               manifest "other" "1.0.0" (Some {[ "pkg-a" := "^1.0.0" ]})].

(** Scenario 6 of the specification: three packages, no dependencies. *)
Definition threePackages : Workspace.Packages :=
  workspaceOf [manifest "pkg-1" "1.0.0" None;
               manifest "pkg-2" "1.0.0" None;
               manifest "pkg-3" "1.0.0" None].

Definition strings (xs : list string) : JSON := JArray (JString <$> xs).

(** Raw configurations over [twoPackages]: the ignore list names both
    packages, only the one depended upon, or that one through a glob. *)
Definition ignoreBoth : WrittenConfig.t :=
  withIgnore (Some (strings ["pkg-a"; "other"])) emptyWrittenConfig.
Definition ignoreDependency : WrittenConfig.t :=
  withIgnore (Some (strings ["pkg-a"])) emptyWrittenConfig.
Definition ignoreByGlob : WrittenConfig.t :=
  withIgnore (Some (strings ["pkg-*"])) emptyWrittenConfig.

(** The fallback configuration but for its groups and its ignore list. *)
Definition configWith (linked : list (list string)) (ignore : list string) : Config.t := {|
  Config.changelog := JArray [JString "@changesets/cli/changelog"; JNull];
  Config.access := JString "restricted";
  Config.commit := JBool false;
  Config.linked := linked;
  Config.baseBranch := JString "master";
  Config.updateInternalDependencies := JString "patch";
  Config.ignore := ignore;
  Config.bumpVersionsWithWorkspaceProtocolOnly := false;
  Config.___experimentalUnsafeOptions_WILL_CHANGE_IN_PATCH := {|
    Config.onlyUpdatePeerDependentsWhenOutOfRange := JBool false;
    Config.useCalculatedVersionForSnapshots := JBool false
  |}
|}.

(** What [parse] makes of [ignoreByGlob]. *)
Definition ignoredByGlob : Config.t := configWith [] ["pkg-a"].

(** Raw configurations over [threePackages]: two groups that share a
    package, as in scenario 6, and two that do not. *)
Definition linkedOverlapping : WrittenConfig.t :=
  withLinked (Some (JArray [strings ["pkg-1"; "pkg-2"]; strings ["pkg-2"; "pkg-3"]]))
    emptyWrittenConfig.
Definition linkedApart : WrittenConfig.t :=
  withLinked (Some (JArray [strings ["pkg-1"]; strings ["pkg-2"; "pkg-3"]]))
    emptyWrittenConfig.

(** Raw configurations with a name that no package has. *)
Definition ignoreUnknown : WrittenConfig.t :=
  withIgnore (Some (strings ["nope"])) emptyWrittenConfig.
Definition linkedUnknown : WrittenConfig.t :=
  withLinked (Some (JArray [strings ["pkg-1"; "nope"]])) emptyWrittenConfig.

(** Two groups that both name [pkg-2], and a third whose one pattern is the
    empty string. *)
Definition linkedEmptyPattern : WrittenConfig.t :=
  withLinked (Some (JArray [strings ["pkg-2"]; strings ["pkg-2"]; strings [""]]))
    emptyWrittenConfig.

(** Scenario 1 of the specification: a manifest at address 0 that depends
    on lodash, and the release of its package. *)
Definition lodashStore : Store :=
  λ _, manifest "app" "1.0.0" (Some {[ "lodash" := "^3.0.0" ]}).

Definition appRelease : Release := {|
  rel_name := "app"; rel_type := "minor";
  oldVersion := "1.0.0"; newVersion := "1.1.0";
  changesets := []; changelog := None;
  packageJson := 0; dir := "packages/app"
|}.

Definition lodashUpdate : VersionUpdate :=
  {| upd_name := "lodash"; upd_version := "4.0.0" |}.

(** An update for a package the manifest does not depend on. *)
Definition reactUpdate : VersionUpdate :=
  {| upd_name := "react"; upd_version := "17.0.0" |}.

(** Another such update, for a package named as a method of every object
    is. *)
Definition constructorUpdate : VersionUpdate :=
  {| upd_name := "constructor"; upd_version := "1.0.0" |}.

(** Scenario 3 of the specification: a manifest at address 0 with a
    dependency given by a path, and the update of that dependency. *)
Definition pathStore : Store :=
  λ _, manifest "app" "1.0.0" (Some {[ "pkg-b" := "file:../pkg-b" ]}).

Definition pathUpdate : VersionUpdate :=
  {| upd_name := "pkg-b"; upd_version := "9.9.9" |}.

End Fixture.

(** * Properties *)

(** ** Strings *)

Lemma startsWith_app (p s : string) : Str.startsWith p (p +:+ s) = true.
Proof.
  induction p as [|c p IH]; simpl; [done|].
  by rewrite decide_True.
Qed.

Lemma startsWith_split (p s : string) :
  Str.startsWith p s = true → s = p +:+ Str.substr (String.length p) s.
Proof.
  revert s; induction p as [|c p IH]; intros s H; simpl in *; [done|].
  destruct s as [|d s]; [done|].
  destruct (decide (c = d)) as [->|]; [|done].
  change (String d s = String d (p +:+ Str.substr (String.length p) s)).
  f_equal. by apply IH.
Qed.

Lemma substr_app (p s : string) : Str.substr (String.length p) (p +:+ s) = s.
Proof. induction p; simpl; done. Qed.

Lemma eqb_true (a b : string) : Str.eqb a b = true ↔ a = b.
Proof. unfold Str.eqb. apply bool_decide_eq_true. Qed.


Lemma includes_false (xs : list string) (x : string) :
  Str.includes xs x = false ↔ x ∉ xs.
Proof. unfold Str.includes. apply bool_decide_eq_false. Qed.

(** ** The classifier on a rewritten range *)

Lemma validVersion_head (v : string) :
  validVersion v = true → ∃ c v', v = String c v' ∧ isDigit c = true.
Proof.
  destruct v as [|c v']; [done|].
  unfold validVersion, numericPart.
  destruct (isDigit c) eqn:Hc; [eauto|done].
Qed.

Lemma digit_is_no_operator (c : ascii) :
  isDigit c = true →
  c ≠ "^"%char ∧ c ≠ "~"%char ∧ c ≠ ">"%char ∧ c ≠ "<"%char ∧ c ≠ "="%char.
Proof. intros H; repeat split; intros ->; vm_compute in H; discriminate. Qed.

Lemma getVersionRangeType_values (r : string) :
  getVersionRangeType r ∈ ["^"; "~"; ">="; "<="; ">"; "<"; ""].
Proof.
  unfold getVersionRangeType.
  repeat (match goal with |- context [if ?b then _ else _] => destruct b end;
          [set_solver|]).
  set_solver.
Qed.

(** The classifier returns the prefix it finds in front of a bare version. *)
Lemma getVersionRangeType_prefix (p v : string) :
  p ∈ ["^"; "~"; ">="; "<="; ">"; "<"; ""] → validVersion v = true →
  getVersionRangeType (p +:+ v) = p.
Proof.
  intros Hp (c & v' & -> & Hc)%validVersion_head.
  destruct (digit_is_no_operator c Hc) as (H1 & H2 & H3 & H4 & H5).
  unfold getVersionRangeType.
  repeat (apply elem_of_cons in Hp as [->|Hp]; [
    simpl; repeat (first [rewrite decide_True by done | rewrite decide_False by congruence]);
    reflexivity |]).
  by apply elem_of_nil in Hp.
Qed.

Lemma getVersionRangeType_idem (r v : string) :
  validVersion v = true →
  getVersionRangeType (getVersionRangeType r +:+ v) = getVersionRangeType r.
Proof. intros Hv. apply getVersionRangeType_prefix; [apply getVersionRangeType_values|done]. Qed.

(** ** The range rewriter *)

Section RewriterProperties.

Variable Range : string → option string.

(** The three ways the loop body can go on a declared range. *)
Lemma newRange_cases (r v : string) :
  newRange Range r v =
    if Str.eqb r "" || Str.includes PROTOCOL_PINNED r then Ok None
    else match Range (workspaceInner r) with
         | None => Throw (InvalidRange (workspaceInner r))
         | Some n =>
             if Str.eqb n "" then Ok None
             else Ok (Some ((if Str.startsWith "workspace:" r then "workspace:" else "")
                            +:+ getVersionRangeType (workspaceInner r) +:+ v))
         end.
Proof.
  unfold newRange, workspaceInner.
  destruct (_ || _); [done|].
  destruct (Str.startsWith "workspace:" r);
    (destruct (Range _) as [n|]; [|done]); by destruct (Str.eqb n "").
Qed.

(** On the store: the loop body changes nothing but the entry, and sets it to
    what [rewrite] says. *)
Lemma bindM_eq {A B} (m : M A) (k : A → M B) (σ : Store) :
  (m ≫= k) σ =
    match m σ with
    | (σ', Ok a) => k a σ'
    | (σ', Throw e) => (σ', Throw e)
    end.
Proof. reflexivity. Qed.

Lemma updateDep_entry (l : loc) (type : DependencyType) (u : VersionUpdate)
    (σ : Store) (r : string) :
  block type (σ l) ≫= (λ deps, deps !! upd_name u) = Some r →
  updateDep Range l type u σ =
    match newRange Range r (upd_version u) with
    | Ok None => (σ, Ok ())
    | Ok (Some r') => (write l (setEntry type (upd_name u) r' (σ l)) σ, Ok ())
    | Throw e => (σ, Throw e)
    end.
Proof.
  intros H. unfold updateDep. rewrite bindM_eq. unfold readM at 1.
  destruct (block type (σ l)) as [deps|]; [|done]. simpl in H.
  unfold getProperty. rewrite H, bindM_eq. unfold liftM at 1.
  by destruct (newRange _ _ _) as [[?|]|].
Qed.

(** On a name the block does not declare, the loop body changes nothing: it
    goes on to the next update, or throws when the name is one of the
    prototype. *)
Lemma updateDep_absent (l : loc) (type : DependencyType) (u : VersionUpdate) (σ : Store) :
  block type (σ l) ≫= (λ deps, deps !! upd_name u) = None →
  updateDep Range l type u σ
  = (σ, if readsPrototype type (upd_name u) (σ l) then Throw TypeError else Ok ()).
Proof.
  intros H. unfold updateDep, readsPrototype. rewrite bindM_eq. unfold readM at 1.
  destruct (block type (σ l)) as [deps|]; [|done]. simpl in H.
  unfold getProperty. rewrite H, bool_decide_eq_true_2 by done.
  by destruct (Str.includes OBJECT_PROTOTYPE (upd_name u)).
Qed.

(** C7: a declared range whose normal form is the any-version range, with or
    without the workspace marker, is left as it is, whatever the new version;
    on the manifest the loop body is a no-op. *)
Theorem any_version_range_kept (r v : string) :
  Range (workspaceInner r) = Some "" →
  rewrite Range r v = Ok r
  ∧ ∀ (l : loc) (type : DependencyType) (u : VersionUpdate) (σ : Store),
      block type (σ l) ≫= (λ deps, deps !! upd_name u) = Some r →
      updateDep Range l type u σ = (σ, Ok ()).
Proof.
  intros H.
  assert (Hn : ∀ v', newRange Range r v' = Ok None).
  { intros v'. rewrite newRange_cases, H. simpl. by destruct (_ || _). }
  split.
  - unfold rewrite. by rewrite Hn.
  - intros l type u σ Hr. by rewrite (updateDep_entry _ _ _ _ _ Hr), Hn.
Qed.


(** A range with a path after the protocol is handed to semver: it stays as
    it is only if semver takes it for the any-version range. *)
Lemma protocol_path_goes_to_semver (v : string) :
  rewrite Range "file:../pkg-b" v = Ok "file:../pkg-b" →
  Range "file:../pkg-b" = Some "" ∨ v = "file:../pkg-b".
Proof.
  unfold rewrite. rewrite newRange_cases. simpl.
  destruct (Range _) as [n|]; [|done].
  destruct (Str.eqb n "") eqn:E; [apply eqb_true in E as ->; by left|].
  intros [= Hv]. right. exact Hv.
Qed.

(** C5: when the declared range parses and the new version is a bare version,
    the rewritten range has the range type of the declared one; and a range
    under the workspace marker keeps the marker, with the same equation
    between the two ranges once the marker is removed. *)
Theorem rewrite_preserves_range_type (r v n : string) :
  validVersion v = true →
  Range (workspaceInner r) = Some n →
  ∃ r', rewrite Range r v = Ok r'
        ∧ getVersionRangeType r' = getVersionRangeType r
        ∧ (Str.startsWith "workspace:" r = true →
           Str.startsWith "workspace:" r' = true
           ∧ getVersionRangeType (Str.substr 10 r')
             = getVersionRangeType (Str.substr 10 r)).
Proof.
  intros Hv Hn. unfold rewrite. rewrite newRange_cases, Hn.
  unfold workspaceInner.
  destruct (_ || _); [by eexists|].
  destruct (Str.eqb n ""); [by eexists|].
  destruct (Str.startsWith "workspace:" r) eqn:Hw;
    (eexists; split; [reflexivity|]); cbn [obind default from_option id].
  - apply (startsWith_split "workspace:") in Hw.
    split; [transitivity ""; [reflexivity|]; by rewrite Hw|].
    intros _. split; [reflexivity|].
    change (Str.substr 10 ("workspace:" +:+ ?s)) with s.
    by apply getVersionRangeType_idem.
  - split; [|done]. by apply getVersionRangeType_idem.
Qed.

End RewriterProperties.

(** ** The frame of [versionPackage] *)

Lemma sameOutside_refl (names : list string) (pj : PackageJSON) :
  sameOutside names pj pj.
Proof. by repeat split. Qed.

Lemma sameOutside_trans (names : list string) (pj1 pj2 pj3 : PackageJSON) :
  sameOutside names pj1 pj2 → sameOutside names pj2 pj3 → sameOutside names pj1 pj3.
Proof.
  intros (Hn & Hv & Ho & Hb) (Hn' & Hv' & Ho' & Hb').
  repeat split; try congruence.
  - destruct (Hb' type) as [-> _]. by destruct (Hb type) as [-> _].
  - intros dep Hdep. destruct (Hb' type) as [_ Hl']. destruct (Hb type) as [_ Hl].
    rewrite Hl', Hl; done.
Qed.

Lemma frame_refl (l : loc) (names : list string) (σ : Store) : frame l names σ σ.
Proof. split; [done|apply sameOutside_refl]. Qed.

Lemma frame_trans (l : loc) (names : list string) (σ1 σ2 σ3 : Store) :
  frame l names σ1 σ2 → frame l names σ2 σ3 → frame l names σ1 σ3.
Proof.
  intros [H1 S1] [H2 S2]. split.
  - intros l' Hl'. rewrite H2, H1; done.
  - by eapply sameOutside_trans.
Qed.

Lemma block_setEntry (type t : DependencyType) (dep r : string) (pj : PackageJSON) :
  block t (setEntry type dep r pj) =
    if decide (t = type) then insert dep r <$> block t pj else block t pj.
Proof. by destruct t. Qed.

(** Overwriting an entry that is there touches that entry only. *)
Lemma sameOutside_setEntry (names : list string) (type : DependencyType)
    (dep r r0 : string) (pj : PackageJSON) :
  dep ∈ names →
  block type pj ≫= (λ deps, deps !! dep) = Some r0 →
  sameOutside names pj (setEntry type dep r pj).
Proof.
  intros Hin Hr0.
  split; [done|]. split; [done|]. split; [done|]. intros t. split.
  - rewrite block_setEntry. case_decide as Ht; [subst t|done].
    destruct (block type pj) as [deps|]; [|done]. simpl in *.
    f_equal. rewrite dom_insert_L.
    apply subseteq_union_1_L, singleton_subseteq_l, elem_of_dom. eauto.
  - intros dep' Hdep. rewrite block_setEntry. case_decide as Ht; [subst t|done].
    destruct (block type pj) as [deps|]; [|done]. simpl.
    apply lookup_insert_ne. intros ->. done.
Qed.

Lemma write_frame (l : loc) (names : list string) (σ : Store) (pj : PackageJSON) :
  sameOutside names (σ l) pj → frame l names σ (write l pj σ).
Proof.
  intros H. split.
  - intros l' Hl'. unfold write. by rewrite decide_False.
  - unfold write. by rewrite decide_True.
Qed.

Lemma forEach_cons {A} (x : A) (xs : list A) (body : A → M unit) (σ : Store) :
  forEach (x :: xs) body σ =
    match body x σ with
    | (σ', Ok _) => forEach xs body σ'
    | (σ', Throw e) => (σ', Throw e)
    end.
Proof. reflexivity. Qed.

(** A relation that every iteration respects is respected by the loop, also
    when an iteration throws. *)
Lemma forEach_rel {A} (R : Store → Store → Prop) (xs : list A) (body : A → M unit) :
  (∀ σ, R σ σ) →
  (∀ σ1 σ2 σ3, R σ1 σ2 → R σ2 σ3 → R σ1 σ3) →
  (∀ x σ, x ∈ xs → R σ (body x σ).1) →
  ∀ σ, R σ (forEach xs body σ).1.
Proof.
  intros Hrefl Htrans. induction xs as [|x xs IH]; intros Hbody σ; [apply Hrefl|].
  rewrite forEach_cons.
  pose proof (Hbody x σ ltac:(left)) as Hx.
  destruct (body x σ) as [σ' [[]|e]]; simpl in *; [|done].
  eapply Htrans; [exact Hx|]. apply IH. intros y σ0 Hy. apply Hbody. by right.
Qed.

Section VersionPackageProperties.

Variable Range : string → option string.

Lemma updateDep_frame (l : loc) (type : DependencyType) (u : VersionUpdate)
    (names : list string) (σ : Store) :
  upd_name u ∈ names → frame l names σ (updateDep Range l type u σ).1.
Proof.
  intros Hin.
  destruct (block type (σ l) ≫= (λ deps, deps !! upd_name u)) as [r|] eqn:Hr.
  - rewrite (updateDep_entry _ _ _ _ _ _ Hr).
    destruct (newRange _ _ _) as [[r'|]|e]; simpl; try apply frame_refl.
    apply write_frame. by eapply sameOutside_setEntry.
  - rewrite (updateDep_absent _ _ _ _ _ Hr). apply frame_refl.
Qed.

Lemma updateBlock_frame (l : loc) (updates : list VersionUpdate)
    (type : DependencyType) (σ : Store) :
  frame l (upd_name <$> updates) σ (updateBlock Range l updates type σ).1.
Proof.
  unfold updateBlock. rewrite bindM_eq. unfold readM at 1.
  destruct (block type (σ l)); [|apply frame_refl].
  apply forEach_rel; [apply frame_refl|apply frame_trans|].
  intros u σ0 Hu. apply updateDep_frame. by apply list_elem_of_fmap_2.
Qed.

Lemma versionPackage_eq (release : Release) (updates : list VersionUpdate) (σ : Store) :
  versionPackage Range release updates σ =
    let l := packageJson release in
    let σ1 := write l (setVersion (newVersion release) (σ l)) σ in
    match forEach DEPENDENCY_TYPES (updateBlock Range l updates) σ1 with
    | (σ', Ok _) => (σ', Ok release)
    | (σ', Throw e) => (σ', Throw e)
    end.
Proof.
  unfold versionPackage. rewrite bindM_eq. unfold modifyM at 1.
  rewrite bindM_eq. by destruct (forEach _ _ _) as [σ' [[]|e]].
Qed.

(** What the call leaves alone. It sets the [version] of the manifest the
    release refers to; no other object of the store changes; the manifest
    keeps its name, its other fields, the dependency blocks it has and the
    keys of each block; every entry whose name is not among the updates keeps
    its range; and the release that is returned is the one that was passed.
    This holds also when the call throws. *)
Lemma versionPackage_leaves (release : Release) (updates : list VersionUpdate)
    (σ : Store) :
  let l := packageJson release in
  let σ' := (versionPackage Range release updates σ).1 in
  (∀ l' : loc, l' ≠ l → σ' l' = σ l')
  ∧ version (σ' l) = newVersion release
  ∧ name (σ' l) = name (σ l)
  ∧ others (σ' l) = others (σ l)
  ∧ (∀ type : DependencyType, dom <$> block type (σ' l) = dom <$> block type (σ l))
  ∧ (∀ (type : DependencyType) (dep : string),
       dep ∉ upd_name <$> updates →
       block type (σ' l) ≫= (λ deps, deps !! dep) = block type (σ l) ≫= (λ deps, deps !! dep))
  ∧ (∀ release' : Release,
       (versionPackage Range release updates σ).2 = Ok release' → release' = release).
Proof.
  intros l σ'. subst σ'. rewrite versionPackage_eq. cbv zeta. fold l.
  set (σ1 := write l (setVersion (newVersion release) (σ l)) σ).
  pose proof (forEach_rel (frame l (upd_name <$> updates)) DEPENDENCY_TYPES
                (updateBlock Range l updates)
                (frame_refl l _) (frame_trans l _)
                (λ type σ0 _, updateBlock_frame l updates type σ0) σ1) as [Hother Hsame].
  assert (Hσ1 : σ1 l = setVersion (newVersion release) (σ l)).
  { unfold σ1, write. by rewrite decide_True. }
  destruct Hsame as (Hn & Hv & Ho & Hb). rewrite Hσ1 in Hn, Hv, Ho, Hb.
  assert (Hframe : ∀ σ' : Store,
    (∀ l', l' ≠ l → σ' l' = σ1 l') →
    (∀ l' : loc, l' ≠ l → σ' l' = σ l')
    ∧ version (setVersion (newVersion release) (σ l)) = newVersion release).
  { intros σ' H. split; [|done]. intros l' Hl'. rewrite H by done.
    unfold σ1, write. by rewrite decide_False. }
  assert (Hblocks : ∀ type, block type (setVersion (newVersion release) (σ l))
                            = block type (σ l)) by (by intros []).
  destruct (forEach _ _ σ1) as [σ' [[]|e]]; simpl in *.
  all: destruct (Hframe σ' Hother) as [H1 H2].
  all: split; [exact H1|]; split; [congruence|]; split; [congruence|].
  all: split; [congruence|]; split;
    [intros type; destruct (Hb type) as [-> _]; by rewrite Hblocks|].
  all: split;
    [intros type dep Hdep; destruct (Hb type) as [_ ->]; [by rewrite Hblocks|done]|].
  - by intros ? [= <-].
  - by intros ? [=].
Qed.

End VersionPackageProperties.

(** ** What [versionPackage] does to the entries it targets *)

Lemma entry_setVersion (type : DependencyType) (dep v : string) (pj : PackageJSON) :
  entry type dep (setVersion v pj) = entry type dep pj.
Proof. by destruct type. Qed.

Lemma entry_setEntry_eq (type : DependencyType) (dep r r0 : string) (pj : PackageJSON) :
  entry type dep pj = Some r0 → entry type dep (setEntry type dep r pj) = Some r.
Proof.
  unfold entry. rewrite block_setEntry, decide_True by done.
  destruct (block type pj) as [deps|]; [|done]. simpl. intros _.
  apply lookup_insert_eq.
Qed.

Lemma entry_setEntry_ne (type t : DependencyType) (dep d r : string) (pj : PackageJSON) :
  ¬ (t = type ∧ d = dep) → entry t d (setEntry type dep r pj) = entry t d pj.
Proof.
  intros Hne. unfold entry. rewrite block_setEntry.
  destruct (decide (t = type)) as [->|]; [|done].
  destruct (block type pj) as [deps|]; [|done]. simpl.
  apply lookup_insert_ne. intros ->. by apply Hne.
Qed.

Lemma write_same (l : loc) (pj : PackageJSON) (σ : Store) : write l pj σ l = pj.
Proof. unfold write. by rewrite decide_True. Qed.

(** Whether a name reads a member of the prototype depends on the keys of
    the block alone. *)
Lemma readsPrototype_dom (type : DependencyType) (dep : string) (pj pj' : PackageJSON) :
  dom <$> block type pj' = dom <$> block type pj →
  readsPrototype type dep pj' = readsPrototype type dep pj.
Proof.
  unfold readsPrototype.
  destruct (block type pj') as [deps'|], (block type pj) as [deps|]; try done.
  intros [= Hdom]. f_equal. apply bool_decide_ext.
  by rewrite <- !not_elem_of_dom, Hdom.
Qed.

Lemma readsPrototype_setVersion (type : DependencyType) (dep v : string)
    (pj : PackageJSON) :
  readsPrototype type dep (setVersion v pj) = readsPrototype type dep pj.
Proof. by destruct type. Qed.

Lemma readsPrototype_declared (type : DependencyType) (dep r : string)
    (pj : PackageJSON) :
  entry type dep pj = Some r → readsPrototype type dep pj = false.
Proof.
  unfold entry, readsPrototype. destruct (block type pj) as [deps|]; [|done].
  simpl. intros H. by rewrite bool_decide_eq_false_2 by congruence.
Qed.

Lemma forEach_stationary {A} (xs : list A) (body : A → M unit) (σ : Store) :
  (∀ x, x ∈ xs → body x σ = (σ, Ok ())) → forEach xs body σ = (σ, Ok ()).
Proof.
  induction xs as [|x xs IH]; intros H; [done|].
  rewrite forEach_cons, (H x) by (by left). apply IH. intros y Hy. apply H. by right.
Qed.

(** The errors of a loop are errors of its iterations, each run on a store
    that the iterations before it left. *)
Lemma forEach_throws {A} (I : Store → Prop) (P : Error → Prop)
    (xs : list A) (body : A → M unit) :
  (∀ x σ, x ∈ xs → I σ → I (body x σ).1) →
  (∀ x σ e, x ∈ xs → I σ → (body x σ).2 = Throw e → P e) →
  ∀ σ e, I σ → (forEach xs body σ).2 = Throw e → P e.
Proof.
  induction xs as [|x xs IH]; intros Hkeep Hbody σ e Hσ; [done|].
  rewrite forEach_cons.
  pose proof (Hkeep x σ ltac:(left) Hσ) as Hσ'.
  pose proof (Hbody x σ) as Hx.
  destruct (body x σ) as [σ' [[]|e']]; simpl in *.
  - apply IH; [| |done].
    + intros y σ0 Hy. apply Hkeep. by right.
    + intros y σ0 e0 Hy. apply Hbody. by right.
  - intros [= <-]. apply Hx; [by left|done|done].
Qed.

Section VersionPackageEntries.

Variable Range : string → option string.

(** One iteration, in terms of entries. *)
Lemma updateDep_effect (l : loc) (type : DependencyType) (u : VersionUpdate) (σ : Store) :
  (∀ t d, ¬ (t = type ∧ d = upd_name u) →
     entry t d ((updateDep Range l type u σ).1 l) = entry t d (σ l))
  ∧ match entry type (upd_name u) (σ l) with
    | None =>
        updateDep Range l type u σ
        = (σ, if readsPrototype type (upd_name u) (σ l)
              then Throw TypeError else Ok ())
    | Some r =>
        match newRange Range r (upd_version u) with
        | Ok o =>
            (updateDep Range l type u σ).2 = Ok ()
            ∧ entry type (upd_name u) ((updateDep Range l type u σ).1 l)
              = Some (default r o)
        | Throw e => updateDep Range l type u σ = (σ, Throw e)
        end
    end.
Proof.
  destruct (entry type (upd_name u) (σ l)) as [r|] eqn:Hr.
  - rewrite (updateDep_entry Range l type u σ r Hr).
    destruct (newRange Range r (upd_version u)) as [[r'|]|e]; simpl.
    + rewrite write_same. split.
      * intros t d Hne. by apply entry_setEntry_ne.
      * split; [done|]. by eapply entry_setEntry_eq.
    + by repeat split.
    + by repeat split.
  - rewrite (updateDep_absent Range l type u σ Hr). by split.
Qed.

(** What one iteration throws: the error of semver on a declared range, or
    the TypeError of line 30 on a member of the prototype. *)
Lemma updateDep_throws (l : loc) (type : DependencyType) (u : VersionUpdate)
    (σ : Store) (e : Error) :
  (updateDep Range l type u σ).2 = Throw e →
  (∃ text, e = InvalidRange text ∧ Range text = None)
  ∨ (e = TypeError ∧ readsPrototype type (upd_name u) (σ l) = true).
Proof.
  destruct (updateDep_effect l type u σ) as [_ H].
  destruct (entry type (upd_name u) (σ l)) as [r|].
  - destruct (newRange Range r (upd_version u)) as [o|e'] eqn:Hnew.
    + destruct H as [-> _]. done.
    + rewrite H. simpl. intros [= <-]. left.
      rewrite newRange_cases in Hnew. destruct (_ || _); [done|].
      destruct (Range (workspaceInner r)) as [n|] eqn:Hn.
      * by destruct (Str.eqb n "").
      * injection Hnew as <-. by eexists.
  - rewrite H. simpl.
    destruct (readsPrototype type (upd_name u) (σ l)); [|done].
    intros [= <-]. by right.
Qed.

(** An iteration neither adds nor removes a key, so it does not change which
    names read a member of the prototype. *)
Lemma updateDep_readsPrototype (l : loc) (type t : DependencyType) (u : VersionUpdate)
    (dep : string) (σ : Store) :
  readsPrototype t dep ((updateDep Range l type u σ).1 l) = readsPrototype t dep (σ l).
Proof.
  destruct (updateDep_frame Range l type u [upd_name u] σ ltac:(left))
    as [_ (_ & _ & _ & Hb)].
  apply readsPrototype_dom. by destruct (Hb t) as [-> _].
Qed.

(** The inner loop over updates with distinct names. *)
Lemma forEach_updateDep_spec (l : loc) (type : DependencyType)
    (updates : list VersionUpdate) (σ : Store) :
  NoDup (upd_name <$> updates) →
  let σ' := (forEach updates (updateDep Range l type) σ).1 in
  let out := (forEach updates (updateDep Range l type) σ).2 in
  (∀ t d, t ≠ type → entry t d (σ' l) = entry t d (σ l))
  ∧ (out = Ok () →
     (∀ u r, u ∈ updates → entry type (upd_name u) (σ l) = Some r →
        ∃ o, newRange Range r (upd_version u) = Ok o
             ∧ entry type (upd_name u) (σ' l) = Some (default r o))
     ∧ (∀ u, u ∈ updates → readsPrototype type (upd_name u) (σ l) = false))
  ∧ ((∀ u r, u ∈ updates → entry type (upd_name u) (σ l) = Some r →
        ∃ o, newRange Range r (upd_version u) = Ok o) →
     (∀ u, u ∈ updates → readsPrototype type (upd_name u) (σ l) = false) →
     out = Ok ()).
Proof.
  revert σ. induction updates as [|u updates IH]; intros σ Hnd; cbv zeta.
  - simpl. repeat split; try done.
    + by intros u r ?%elem_of_nil.
    + by intros u ?%elem_of_nil.
  - rewrite fmap_cons in Hnd. apply NoDup_cons in Hnd as [Hu Hnd].
    rewrite forEach_cons.
    destruct (updateDep_effect l type u σ) as [Hother Hthis].
    pose proof (λ dep, updateDep_readsPrototype l type type u dep σ) as Hproto.
    pose proof (forEach_rel (frame l (upd_name <$> updates)) updates
                  (updateDep Range l type) (frame_refl l _) (frame_trans l _)
                  (λ x σ0 Hx, updateDep_frame Range l type x _ σ0
                                (list_elem_of_fmap_2 upd_name _ _ Hx))) as Hframe.
    destruct (updateDep Range l type u σ) as [σ1 [[]|e]] eqn:Hstep; simpl in *.
    + destruct (IH σ1 Hnd) as (Hty & Hok & Hall).
      destruct (Hframe σ1) as [_ (_ & _ & _ & Hkeep)].
      assert (Hrest : ∀ u', u' ∈ updates →
                entry type (upd_name u') (σ1 l) = entry type (upd_name u') (σ l)).
      { intros u' Hu'. apply Hother. intros [_ Heq]. apply Hu.
        rewrite <- Heq. by apply list_elem_of_fmap_2. }
      split; [|split].
      * intros t d Ht. rewrite Hty by done. apply Hother. by intros [? _].
      * intros Hout. destruct (Hok Hout) as [Hdeclared Hnone]. split.
        -- intros u' r [->|Hu']%elem_of_cons Hr.
           ++ rewrite Hr in Hthis.
              destruct (newRange Range r (upd_version u)) as [o|e]; [|done].
              exists o. split; [done|]. destruct Hthis as [_ <-].
              by apply (Hkeep type).
           ++ rewrite <- Hrest in Hr by done. by apply Hdeclared.
        -- intros u' [->|Hu']%elem_of_cons.
           ++ destruct (entry type (upd_name u) (σ l)) as [r|] eqn:Hr.
              ** by eapply readsPrototype_declared.
              ** injection Hthis as _ Hthis.
                 by destruct (readsPrototype type (upd_name u) (σ l)).
           ++ rewrite <- Hproto. by apply Hnone.
      * intros Hparse Hplain. apply Hall.
        -- intros u' r Hu' Hr.
           rewrite Hrest in Hr by done. apply (Hparse u' r); [by right|done].
        -- intros u' Hu'. rewrite Hproto. apply Hplain. by right.
    + split; [|split].
      * intros t d Ht. apply Hother. by intros [? _].
      * done.
      * intros Hparse Hplain. exfalso.
        destruct (entry type (upd_name u) (σ l)) as [r|] eqn:Hr.
        -- destruct (Hparse u r ltac:(left) Hr) as [o Ho]. rewrite Ho in Hthis.
           by destruct Hthis.
        -- rewrite (Hplain u) in Hthis by (by left). done.
Qed.

Lemma updateBlock_cases (l : loc) (updates : list VersionUpdate)
    (type : DependencyType) (σ : Store) :
  updateBlock Range l updates type σ =
    match block type (σ l) with
    | Some _ => forEach updates (updateDep Range l type) σ
    | None => (σ, Ok ())
    end.
Proof.
  unfold updateBlock. rewrite bindM_eq. unfold readM at 1.
  by destruct (block type (σ l)).
Qed.

Lemma updateBlock_spec (l : loc) (type : DependencyType)
    (updates : list VersionUpdate) (σ : Store) :
  NoDup (upd_name <$> updates) →
  let σ' := (updateBlock Range l updates type σ).1 in
  let out := (updateBlock Range l updates type σ).2 in
  (∀ t d, t ≠ type → entry t d (σ' l) = entry t d (σ l))
  ∧ (out = Ok () →
     (∀ u r, u ∈ updates → entry type (upd_name u) (σ l) = Some r →
        ∃ o, newRange Range r (upd_version u) = Ok o
             ∧ entry type (upd_name u) (σ' l) = Some (default r o))
     ∧ (∀ u, u ∈ updates → readsPrototype type (upd_name u) (σ l) = false))
  ∧ ((∀ u r, u ∈ updates → entry type (upd_name u) (σ l) = Some r →
        ∃ o, newRange Range r (upd_version u) = Ok o) →
     (∀ u, u ∈ updates → readsPrototype type (upd_name u) (σ l) = false) →
     out = Ok ()).
Proof.
  intros Hnd. rewrite updateBlock_cases.
  destruct (block type (σ l)) as [deps|] eqn:Hb.
  - by apply forEach_updateDep_spec.
  - cbv zeta. simpl. repeat split; try done.
    + intros u r _. unfold entry. by rewrite Hb.
    + intros u _. unfold readsPrototype. by rewrite Hb.
Qed.

Lemma updateBlock_readsPrototype (l : loc) (updates : list VersionUpdate)
    (type t : DependencyType) (dep : string) (σ : Store) :
  readsPrototype t dep ((updateBlock Range l updates type σ).1 l)
  = readsPrototype t dep (σ l).
Proof.
  destruct (updateBlock_frame Range l updates type σ) as [_ (_ & _ & _ & Hb)].
  apply readsPrototype_dom. by destruct (Hb t) as [-> _].
Qed.

(** The outer loop over distinct dependency types. *)
Lemma forEach_updateBlock_spec (l : loc) (types : list DependencyType)
    (updates : list VersionUpdate) (σ : Store) :
  NoDup types → NoDup (upd_name <$> updates) →
  let σ' := (forEach types (updateBlock Range l updates) σ).1 in
  let out := (forEach types (updateBlock Range l updates) σ).2 in
  (∀ t d, t ∉ types → entry t d (σ' l) = entry t d (σ l))
  ∧ (out = Ok () →
     (∀ t u r, t ∈ types → u ∈ updates → entry t (upd_name u) (σ l) = Some r →
        ∃ o, newRange Range r (upd_version u) = Ok o
             ∧ entry t (upd_name u) (σ' l) = Some (default r o))
     ∧ (∀ t u, t ∈ types → u ∈ updates →
          readsPrototype t (upd_name u) (σ l) = false))
  ∧ ((∀ t u r, t ∈ types → u ∈ updates → entry t (upd_name u) (σ l) = Some r →
        ∃ o, newRange Range r (upd_version u) = Ok o) →
     (∀ t u, t ∈ types → u ∈ updates →
        readsPrototype t (upd_name u) (σ l) = false) →
     out = Ok ()).
Proof.
  intros Hts Hnd. revert σ.
  induction types as [|t0 types IH]; intros σ; cbv zeta.
  - simpl. repeat split; try done.
    + by intros t u r ?%elem_of_nil.
    + by intros t u ?%elem_of_nil.
  - apply NoDup_cons in Hts as [Ht0 Hts]. rewrite forEach_cons.
    destruct (updateBlock_spec l t0 updates σ Hnd) as (Hother & Hok & Hall).
    pose proof (λ t dep, updateBlock_readsPrototype l updates t0 t dep σ) as Hproto.
    destruct (updateBlock Range l updates t0 σ) as [σ1 [[]|e]]; simpl in *.
    + destruct (IH Hts σ1) as (Hout' & Hok' & Hall').
      split; [|split].
      * intros t d [Hne Hnin]%not_elem_of_cons. rewrite Hout' by done. by apply Hother.
      * intros Hout. destruct (Hok eq_refl) as [Hdeclared Hnone].
        destruct (Hok' Hout) as [Hdeclared' Hnone']. split.
        -- intros t u r [->|Ht]%elem_of_cons Hu Hr.
           ++ destruct (Hdeclared u r Hu Hr) as (o & Ho & He).
              exists o. split; [done|]. by rewrite Hout'.
           ++ apply (Hdeclared' t u r Ht Hu). rewrite Hother; [done|]. by intros ->.
        -- intros t u [->|Ht]%elem_of_cons Hu; [by apply Hnone|].
           rewrite <- Hproto. by apply Hnone'.
      * intros Hparse Hplain. apply Hall'.
        -- intros t u r Ht Hu Hr.
           apply (Hparse t u r); [by right|done|].
           rewrite <- Hother; [done|]. by intros ->.
        -- intros t u Ht Hu. rewrite Hproto. apply Hplain; [by right|done].
    + split; [|split].
      * intros t d [Hne _]%not_elem_of_cons. by apply Hother.
      * done.
      * intros Hparse Hplain. apply Hall.
        -- intros u r Hu Hr. apply (Hparse t0 u r); [by left|done|done].
        -- intros u Hu. apply Hplain; [by left|done].
Qed.

Lemma DEPENDENCY_TYPES_all (type : DependencyType) : type ∈ DEPENDENCY_TYPES.
Proof. destruct type; apply (bool_decide_unpack _); vm_compute; exact I. Qed.

Lemma DEPENDENCY_TYPES_NoDup : NoDup DEPENDENCY_TYPES.
Proof. apply (bool_decide_unpack _). vm_compute. exact I. Qed.

Lemma newRange_rewrite (r v : string) :
  (∃ o, newRange Range r v = Ok o) ↔ ∃ r', rewrite Range r v = Ok r'.
Proof.
  unfold rewrite. destruct (newRange Range r v) as [o|e]; simpl.
  - split; intros _; by eexists.
  - split; by intros [? ?].
Qed.

(** The whole call, in terms of entries. *)
Lemma versionPackage_spec (release : Release) (updates : list VersionUpdate) (σ : Store) :
  NoDup (upd_name <$> updates) →
  let l := packageJson release in
  let σ' := (versionPackage Range release updates σ).1 in
  let out := (versionPackage Range release updates σ).2 in
  (out = Ok release →
     (∀ t u r, u ∈ updates → entry t (upd_name u) (σ l) = Some r →
        ∃ o, newRange Range r (upd_version u) = Ok o
             ∧ entry t (upd_name u) (σ' l) = Some (default r o))
     ∧ (∀ t u, u ∈ updates → readsPrototype t (upd_name u) (σ l) = false))
  ∧ ((∀ t u r, u ∈ updates → entry t (upd_name u) (σ l) = Some r →
        ∃ o, newRange Range r (upd_version u) = Ok o) →
     (∀ t u, u ∈ updates → readsPrototype t (upd_name u) (σ l) = false) →
     out = Ok release).
Proof.
  intros Hnd l. cbv zeta. rewrite versionPackage_eq. cbv zeta. fold l.
  set (σ1 := write l (setVersion (newVersion release) (σ l)) σ).
  assert (Hσ1 : ∀ t d, entry t d (σ1 l) = entry t d (σ l)).
  { intros t d. unfold σ1. by rewrite write_same, entry_setVersion. }
  assert (Hp1 : ∀ t d, readsPrototype t d (σ1 l) = readsPrototype t d (σ l)).
  { intros t d. unfold σ1. by rewrite write_same, readsPrototype_setVersion. }
  destruct (forEach_updateBlock_spec l DEPENDENCY_TYPES updates σ1
              DEPENDENCY_TYPES_NoDup Hnd) as (_ & Hok & Hall).
  destruct (forEach DEPENDENCY_TYPES (updateBlock Range l updates) σ1)
    as [σ' [[]|e]]; simpl in *.
  - split; [|done]. intros _. destruct (Hok eq_refl) as [Hdeclared Hnone]. split.
    + intros t u r Hu Hr.
      apply (Hdeclared t u r (DEPENDENCY_TYPES_all t) Hu). by rewrite Hσ1.
    + intros t u Hu. rewrite <- Hp1. by apply Hnone; [apply DEPENDENCY_TYPES_all|].
  - split; [done|]. intros Hparse Hplain. exfalso.
    assert (Throw e = Ok ()); [|done].
    apply Hall.
    + intros t u r _ Hu Hr. apply (Hparse t u r Hu). by rewrite <- Hσ1.
    + intros t u _ Hu. rewrite Hp1. by apply Hplain.
Qed.

(** C3, as amended: [versionPackage] works in place on the manifest object
    the release refers to. It sets that manifest's [version] to the new
    version of the release; no other object of the store changes; the
    manifest keeps its name, its other fields, the dependency blocks it has
    and the keys of each block; every entry whose name is not among the
    updates keeps its range; and the release that is returned is the one that
    was passed, referring to the same manifest object. All this holds also
    when the call throws. When the updates have distinct names and the call
    returns, every entry that an update targets has been overwritten, in that
    same object, with what the loop body makes of the range that was declared
    there. *)
Theorem versionPackage_in_place (release : Release) (updates : list VersionUpdate)
    (σ : Store) :
  let l := packageJson release in
  let σ' := (versionPackage Range release updates σ).1 in
  let out := (versionPackage Range release updates σ).2 in
  (∀ l' : loc, l' ≠ l → σ' l' = σ l')
  ∧ version (σ' l) = newVersion release
  ∧ name (σ' l) = name (σ l)
  ∧ others (σ' l) = others (σ l)
  ∧ (∀ type : DependencyType, dom <$> block type (σ' l) = dom <$> block type (σ l))
  ∧ (∀ (type : DependencyType) (dep : string),
       dep ∉ upd_name <$> updates → entry type dep (σ' l) = entry type dep (σ l))
  ∧ (∀ release' : Release, out = Ok release' → release' = release)
  ∧ (NoDup (upd_name <$> updates) → out = Ok release →
     ∀ (type : DependencyType) (u : VersionUpdate) (r : string),
       u ∈ updates → entry type (upd_name u) (σ l) = Some r →
       ∃ r', rewrite Range r (upd_version u) = Ok r'
             ∧ entry type (upd_name u) (σ' l) = Some r').
Proof.
  intros l σ' out.
  destruct (versionPackage_leaves Range release updates σ)
    as (H1 & H2 & H3 & H4 & H5 & H6 & H7).
  do 6 (split; [done|]). split; [done|].
  intros Hnd Hout type u r Hu Hr.
  destruct (versionPackage_spec release updates σ Hnd) as [Hok _].
  destruct (Hok Hout) as [Hdeclared _].
  destruct (Hdeclared type u r Hu Hr) as (o & Ho & He).
  exists (default r o). split; [|done]. unfold rewrite. by rewrite Ho.
Qed.

(** X4: when the updates have distinct names and the call returns, every
    entry it targets, under each of the four dependency types on its own, holds
    what the loop body makes of the range that was declared there for the
    version of its update. *)
Theorem versionPackage_rewrites_targets (release : Release)
    (updates : list VersionUpdate) (σ : Store) (type : DependencyType)
    (u : VersionUpdate) (r : string) :
  NoDup (upd_name <$> updates) →
  (versionPackage Range release updates σ).2 = Ok release →
  u ∈ updates →
  entry type (upd_name u) (σ (packageJson release)) = Some r →
  ∃ r', rewrite Range r (upd_version u) = Ok r'
        ∧ entry type (upd_name u)
            ((versionPackage Range release updates σ).1 (packageJson release))
          = Some r'.
Proof.
  intros Hnd Hout Hu Hr.
  destruct (versionPackage_spec release updates σ Hnd) as [Hok _].
  destruct (Hok Hout) as [Hdeclared _].
  destruct (Hdeclared type u r Hu Hr) as (o & Ho & He).
  exists (default r o). split; [|done]. unfold rewrite. by rewrite Ho.
Qed.

(** X5: when the updates have distinct names, the call returns, with the
    release it was given, exactly when semver parses every declared range
    that an update targets and no update names, in a block that does not
    declare it, a member of the prototype of objects; the ranges of other
    entries are never parsed. *)
Theorem versionPackage_returns_iff (release : Release)
    (updates : list VersionUpdate) (σ : Store) :
  NoDup (upd_name <$> updates) →
  (versionPackage Range release updates σ).2 = Ok release
  ↔ (∀ (type : DependencyType) (u : VersionUpdate) (r : string),
       u ∈ updates →
       entry type (upd_name u) (σ (packageJson release)) = Some r →
       ∃ r', rewrite Range r (upd_version u) = Ok r')
    ∧ (∀ (type : DependencyType) (u : VersionUpdate),
         u ∈ updates →
         readsPrototype type (upd_name u) (σ (packageJson release)) = false).
Proof.
  intros Hnd.
  destruct (versionPackage_spec release updates σ Hnd) as [Hok Hall]. split.
  - intros Hout. destruct (Hok Hout) as [Hdeclared Hnone]. split; [|done].
    intros t u r Hu Hr. apply newRange_rewrite.
    destruct (Hdeclared t u r Hu Hr) as (o & Ho & _). by exists o.
  - intros [Hparse Hplain]. apply Hall; [|done]. intros t u r Hu Hr.
    apply newRange_rewrite. by eapply Hparse.
Qed.

Lemma updateBlock_throws (l : loc) (updates : list VersionUpdate)
    (type : DependencyType) (σ : Store) (e : Error) :
  (updateBlock Range l updates type σ).2 = Throw e →
  (∃ text, e = InvalidRange text ∧ Range text = None)
  ∨ (e = TypeError
     ∧ ∃ u, u ∈ updates ∧ readsPrototype type (upd_name u) (σ l) = true).
Proof.
  rewrite updateBlock_cases. destruct (block type (σ l)); [|done].
  intros Hthrow.
  apply (forEach_throws
           (λ σ0, ∀ dep, readsPrototype type dep (σ0 l) = readsPrototype type dep (σ l))
           (λ e, (∃ text, e = InvalidRange text ∧ Range text = None)
                 ∨ (e = TypeError
                    ∧ ∃ u, u ∈ updates ∧ readsPrototype type (upd_name u) (σ l) = true))
           updates (updateDep Range l type)) with (σ := σ); [| |done|exact Hthrow].
  - intros u σ0 _ Hσ0 dep. by rewrite updateDep_readsPrototype.
  - intros u σ0 e0 Hu Hσ0 [?|[-> Hp]]%updateDep_throws; [by left|right].
    split; [done|]. exists u. split; [done|]. by rewrite <- Hσ0.
Qed.

(** X6: [versionPackage] throws one of two errors: the one of semver, for a
    declared range that semver does not parse, naming the text that was handed
    to semver; or a TypeError, when an update names a member of the prototype
    of objects in a block that does not declare that name. *)
Theorem versionPackage_throws_only (release : Release)
    (updates : list VersionUpdate) (σ : Store) (e : Error) :
  (versionPackage Range release updates σ).2 = Throw e →
  (∃ text, e = InvalidRange text ∧ Range text = None)
  ∨ (e = TypeError
     ∧ ∃ (type : DependencyType) (u : VersionUpdate),
         u ∈ updates
         ∧ readsPrototype type (upd_name u) (σ (packageJson release)) = true).
Proof.
  rewrite versionPackage_eq. cbv zeta.
  set (l := packageJson release).
  set (σ1 := write l (setVersion (newVersion release) (σ l)) σ).
  pose proof (forEach_throws
    (λ σ0, ∀ t dep, readsPrototype t dep (σ0 l) = readsPrototype t dep (σ l))
    (λ e, (∃ text, e = InvalidRange text ∧ Range text = None)
          ∨ (e = TypeError
             ∧ ∃ t u, u ∈ updates ∧ readsPrototype t (upd_name u) (σ l) = true))
    DEPENDENCY_TYPES (updateBlock Range l updates)) as H.
  destruct (forEach DEPENDENCY_TYPES _ σ1) as [σ' [[]|e']] eqn:Hloop; simpl in *;
    [done|].
  intros [= <-]. apply (H) with (σ := σ1) (e := e').
  - intros t σ0 _ Hσ0 t' dep. by rewrite updateBlock_readsPrototype.
  - intros t σ0 e0 _ Hσ0 [?|[-> (u & Hu & Hp)]]%updateBlock_throws; [by left|right].
    split; [done|]. exists t, u. split; [done|]. by rewrite <- Hσ0.
  - intros t dep. unfold σ1. by rewrite write_same, readsPrototype_setVersion.
  - by rewrite Hloop.
Qed.

(** X7: updates for packages that no dependency block declares, none of
    them named as a member of the prototype of objects is, change nothing: the
    call only sets the version, returns, and semver is never asked. The empty
    list of updates is the plainest case. *)
Theorem versionPackage_untargeted (release : Release)
    (updates : list VersionUpdate) (σ : Store) :
  (∀ (type : DependencyType) (u : VersionUpdate),
     u ∈ updates →
     entry type (upd_name u) (σ (packageJson release)) = None
     ∧ readsPrototype type (upd_name u) (σ (packageJson release)) = false) →
  versionPackage Range release updates σ
  = (write (packageJson release)
       (setVersion (newVersion release) (σ (packageJson release))) σ,
     Ok release).
Proof.
  intros Habsent. rewrite versionPackage_eq. cbv zeta.
  rewrite forEach_stationary; [done|].
  intros type _. rewrite updateBlock_cases.
  destruct (block type _); [|done].
  apply forEach_stationary. intros u Hu.
  destruct (Habsent type u Hu) as [Hnone Hplain].
  rewrite updateDep_absent.
  - by rewrite write_same, readsPrototype_setVersion, Hplain.
  - rewrite write_same. fold (entry type (upd_name u)
      (setVersion (newVersion release) (σ (packageJson release)))).
    by rewrite entry_setVersion.
Qed.

End VersionPackageEntries.

(** C3, against the claim as stated: after the call the manifest object that
    was passed in has the new version of the release and a rewritten
    dependency, where before it had neither. *)
Lemma versionPackage_mutates_its_input :
  let σ' := (versionPackage Fixture.Range Fixture.appRelease
               [Fixture.lodashUpdate] Fixture.lodashStore).1 in
  (version (Fixture.lodashStore 0) = "1.0.0" ∧ version (σ' 0) = "1.1.0")
  ∧ (pj_dependencies (Fixture.lodashStore 0) ≫= (λ deps, deps !! "lodash") = Some "^3.0.0"
     ∧ pj_dependencies (σ' 0) ≫= (λ deps, deps !! "lodash") = Some "^4.0.0").
Proof. vm_compute. done. Qed.

(** ** Outcomes and the array methods *)

Lemma bind_Ok {A B} (o : Outcome A) (k : A → Outcome B) (b : B) :
  o ≫= k = Ok b ↔ ∃ a, o = Ok a ∧ k a = Ok b.
Proof.
  destruct o as [a|e]; simpl.
  - split; [by exists a|]. by intros (a' & [= <-] & H).
  - split; [done|]. by intros (a & H & _).
Qed.

Lemma some_false {A} (f : A → Outcome bool) (xs : list A) :
  Arr.some f xs = Ok false ↔ ∀ x, x ∈ xs → f x = Ok false.
Proof.
  induction xs as [|x xs IH]; simpl.
  - split; [by intros _ x ?%elem_of_nil|done].
  - destruct (f x) as [[]|e] eqn:E; simpl.
    + split; [done|]. intros H. specialize (H x ltac:(left)). congruence.
    + rewrite IH. split.
      * by intros H y [->|Hy]%elem_of_cons; [|apply H].
      * intros H y Hy. apply H. by right.
    + split; [done|]. intros H. specialize (H x ltac:(left)). congruence.
Qed.

Lemma some_true {A} (f : A → Outcome bool) (xs : list A) :
  Arr.some f xs = Ok true → ∃ x, x ∈ xs ∧ f x = Ok true.
Proof.
  induction xs as [|x xs IH]; simpl; [done|].
  destruct (f x) as [[]|e] eqn:E; simpl; [| |done].
  - intros _. exists x. split; [by left|done].
  - intros (y & Hy & Hf)%IH. exists y. split; [by right|done].
Qed.

Lemma filter_Ok {A} (f : A → Outcome bool) (xs kept : list A) :
  Arr.filter f xs = Ok kept →
  kept `sublist_of` xs
  ∧ (∀ x, x ∈ kept ↔ x ∈ xs ∧ f x = Ok true)
  ∧ (∀ x, x ∈ xs → returns (f x)).
Proof.
  revert kept. induction xs as [|x xs IH]; simpl; intros kept.
  - intros [= <-]. split; [done|]. split.
    + intros x. split; [by intros ?%elem_of_nil|by intros [?%elem_of_nil _]].
    + by intros x ?%elem_of_nil.
  - destruct (f x) as [b|e] eqn:E; simpl; [|done].
    destruct (Arr.filter f xs) as [kept'|e]; simpl; [|done].
    destruct (IH kept' eq_refl) as (Hsub & Hin & Hret).
    intros [= <-]. split; [|split].
    + destruct b; by constructor.
    + intros y. destruct b.
      * rewrite !elem_of_cons, Hin. split.
        -- intros [->|[? ?]]; eauto.
        -- intros [[->|?] ?]; eauto.
      * rewrite elem_of_cons, Hin. split.
        -- intros [? ?]; eauto.
        -- intros [[->|?] ?]; [congruence|eauto].
    + intros y [->|Hy]%elem_of_cons; [by exists b|by apply Hret].
Qed.

Lemma map_Ok {A B} (f : A → Outcome B) (xs : list A) (ys : list B) :
  Arr.map f xs = Ok ys ↔ Forall2 (λ x y, f x = Ok y) xs ys.
Proof.
  revert ys. induction xs as [|x xs IH]; simpl; intros ys.
  - split; [intros [= <-]; constructor|by intros ->%Forall2_nil_inv_l].
  - split.
    + destruct (f x) as [y|e] eqn:E; simpl; [|done].
      destruct (Arr.map f xs) as [ys'|e]; simpl; [|done].
      intros [= <-]. constructor; [done|]. by apply IH.
    + intros (y & ys' & Hy & Hys & ->)%Forall2_cons_inv_l.
      rewrite Hy. simpl. apply IH in Hys. by rewrite Hys.
Qed.

Lemma map_returns {A B} (f : A → Outcome B) (xs : list A) :
  (∀ x, x ∈ xs → returns (f x)) → returns (Arr.map f xs).
Proof.
  induction xs as [|x xs IH]; intros H; simpl; [by eexists|].
  destruct (H x ltac:(left)) as [y ->]. simpl.
  destruct IH as [ys ->]; [intros y' Hy'; apply H; by right|].
  by eexists.
Qed.

(** ** Sets in insertion order, and the scan for duplicates *)

Lemma elem_of_setAdd (x y : string) (s : list string) :
  x ∈ setAdd y s ↔ x ∈ s ∨ x = y.
Proof.
  unfold setAdd. case_bool_decide as Hy.
  - split; [by left|]. intros [?| ->]; done.
  - rewrite elem_of_app, list_elem_of_singleton. done.
Qed.

Lemma NoDup_setAdd (y : string) (s : list string) : NoDup s → NoDup (setAdd y s).
Proof.
  intros Hs. unfold setAdd. case_bool_decide as Hy; [done|].
  apply NoDup_app. split; [done|]. split; [|apply NoDup_singleton].
  intros x Hx ->%list_elem_of_singleton. done.
Qed.

Lemma setAdd_not_nil (y : string) (s : list string) : setAdd y s ≠ [].
Proof.
  intros H. assert (Hy : y ∈ setAdd y s) by (apply elem_of_setAdd; by right).
  rewrite H in Hy. by apply elem_of_nil in Hy.
Qed.

Lemma twice_not_NoDup (x : string) (l : list string) : twice x l → ¬ NoDup l.
Proof.
  intros (l1 & l2 & l3 & ->) (_ & _ & H)%NoDup_app.
  apply NoDup_cons in H as [H _]. apply H.
  apply elem_of_app. right. by left.
Qed.

Lemma scanGroup_cons (y : string) (names found dup : list string) :
  scanGroup (y :: names) (found, dup) =
    scanGroup names
      (setAdd y found, if bool_decide (y ∈ found) then setAdd y dup else dup).
Proof. reflexivity. Qed.

Lemma scanGroup_app (a b : list string) (sets : list string * list string) :
  scanGroup (a ++ b) sets = scanGroup b (scanGroup a sets).
Proof. unfold scanGroup. apply foldl_app. Qed.

(** What the two sets hold after a scan that started from [found] and
    [dup]. *)
Lemma scanGroup_spec (names found dup : list string) :
  let found' := (scanGroup names (found, dup)).1 in
  let dup' := (scanGroup names (found, dup)).2 in
  (∀ x, x ∈ found' ↔ x ∈ found ∨ x ∈ names)
  ∧ (∀ x, x ∈ dup → x ∈ dup')
  ∧ (∀ x, x ∈ found → x ∈ names → x ∈ dup')
  ∧ (∀ x, twice x names → x ∈ dup')
  ∧ (NoDup dup → NoDup dup')
  ∧ (dup' = [] → dup = [] ∧ NoDup names ∧ ∀ x, x ∈ names → x ∉ found).
Proof.
  revert found dup. induction names as [|y names IH]; intros found dup; cbv zeta.
  - simpl. repeat split; try done.
    + by left.
    + by intros [?|?%elem_of_nil].
    + by intros x _ ?%elem_of_nil.
    + intros x (l1 & l2 & l3 & H). by destruct l1.
    + constructor.
    + by intros x ?%elem_of_nil.
  - rewrite scanGroup_cons.
    set (found1 := setAdd y found).
    set (dup1 := if bool_decide (y ∈ found) then setAdd y dup else dup).
    destruct (IH found1 dup1) as (Hfound & Hmono & Hseen & Htwice & Hnodup & Hnil).
    assert (Hdup1 : ∀ x, x ∈ dup → x ∈ dup1).
    { intros x Hx. unfold dup1. case_bool_decide; [|done].
      apply elem_of_setAdd. by left. }
    assert (Hfound1 : ∀ x, x ∈ found1 ↔ x ∈ found ∨ x = y)
      by (intros x; apply elem_of_setAdd).
    split; [|split; [|split; [|split; [|split]]]].
    + intros x. rewrite Hfound, Hfound1, elem_of_cons. tauto.
    + intros x Hx. by apply Hmono, Hdup1.
    + intros x Hx [->|Hin]%elem_of_cons.
      * apply Hmono. unfold dup1. rewrite bool_decide_eq_true_2 by done.
        apply elem_of_setAdd. by right.
      * apply Hseen; [|done]. apply Hfound1. by left.
    + intros x (l1 & l2 & l3 & H). destruct l1 as [|z l1]; simplify_eq/=.
      * apply Hseen; [apply Hfound1; by right|].
        apply elem_of_app. right. by left.
      * apply Htwice. by exists l1, l2, l3.
    + intros Hd. apply Hnodup. unfold dup1. case_bool_decide; [|done].
      by apply NoDup_setAdd.
    + intros Hd. destruct (Hnil Hd) as (Hd1 & Hnames & Hfresh).
      assert (Hy : y ∉ found).
      { intros Hy. unfold dup1 in Hd1. rewrite bool_decide_eq_true_2 in Hd1 by done.
        by apply setAdd_not_nil in Hd1. }
      split; [|split].
      * unfold dup1 in Hd1. by rewrite bool_decide_eq_false_2 in Hd1.
      * apply NoDup_cons. split; [|done].
        intros Hin. apply (Hfresh y Hin), Hfound1. by right.
      * intros x [->|Hin]%elem_of_cons; [done|].
        intros Hx. apply (Hfresh x Hin), Hfound1. by left.
Qed.

(** Two groups that share a name make it occur twice in their
    concatenation. *)
Lemma twice_concat_lt (groups : list (list string)) (i j : nat)
    (gi gj : list string) (n : string) :
  i < j → groups !! i = Some gi → groups !! j = Some gj →
  n ∈ gi → n ∈ gj → twice n (concat groups).
Proof.
  intros Hij Hi Hj (a & b & ->)%list_elem_of_split (c & d & ->)%list_elem_of_split.
  apply list_elem_of_split_length in Hi as (l1 & l2 & -> & ->).
  rewrite lookup_app_r in Hj by lia.
  destruct (j - length l1) as [|k] eqn:Hk; [lia|]. simpl in Hj.
  apply list_elem_of_split_length in Hj as (l3 & l4 & -> & _).
  exists (concat l1 ++ a), (b ++ concat l3 ++ c), (d ++ concat l4).
  rewrite !concat_app. simpl. rewrite !concat_app. simpl.
  by rewrite <- !app_assoc.
Qed.

Lemma twice_concat (groups : list (list string)) (i j : nat)
    (gi gj : list string) (n : string) :
  i ≠ j → groups !! i = Some gi → groups !! j = Some gj →
  n ∈ gi → n ∈ gj → twice n (concat groups).
Proof.
  intros Hij Hi Hj Hgi Hgj. destruct (decide (i < j)).
  - by eapply (twice_concat_lt groups i j).
  - eapply (twice_concat_lt groups j i); eauto. lia.
Qed.

(** ** Counting messages *)

Lemma occurrences_app (x : string) (l1 l2 : list string) :
  occurrences x (l1 ++ l2) = occurrences x l1 + occurrences x l2.
Proof. unfold occurrences. by rewrite filter_app, length_app. Qed.

Lemma occurrences_none (x : string) (l : list string) :
  (∀ m, m ∈ l → m ≠ x) → occurrences x l = 0.
Proof.
  unfold occurrences. induction l as [|m l IH]; intros H; [done|].
  rewrite filter_cons_False; [apply IH|].
  - intros m' Hm'. apply H. by right.
  - apply H. by left.
Qed.

Lemma occurrences_NoDup (x : string) (l : list string) :
  NoDup l → x ∈ l → occurrences x l = 1.
Proof.
  unfold occurrences. induction l as [|m l IH]; intros Hnd Hin.
  - by apply elem_of_nil in Hin.
  - apply NoDup_cons in Hnd as [Hm Hnd].
    apply elem_of_cons in Hin as [->|Hin].
    + rewrite filter_cons_True by done. simpl. f_equal.
      by apply (occurrences_none m l); intros m' Hm' ->.
    + rewrite filter_cons_False; [by apply IH|]. by intros ->.
Qed.

Lemma occurrences_fmap (f : string → string) (x : string) (l : list string) :
  Inj (=) (=) f → occurrences (f x) (f <$> l) = occurrences x l.
Proof.
  intros Hf. unfold occurrences. induction l as [|m l IH]; [done|].
  rewrite fmap_cons. destruct (decide (m = x)) as [->|Hne].
  - rewrite !filter_cons_True by done. simpl. by rewrite IH.
  - rewrite !filter_cons_False; [done|done|]. by intros ?%Hf.
Qed.

(** ** Telling the messages apart *)

Lemma chars_app (a b : string) : chars (a +:+ b) = chars a ++ chars b.
Proof.
  induction a as [|c a IH]; [done|].
  change (chars (String c (a +:+ b)) = c :: chars a ++ chars b).
  simpl. by rewrite IH.
Qed.

Lemma chars_inj (a b : string) : chars a = chars b → a = b.
Proof.
  revert b. induction a as [|c a IH]; intros [|d b] H; simplify_eq/=; [done|].
  f_equal. by apply IH.
Qed.

Global Instance duplicatedMessage_inj : Inj (=) (=) duplicatedMessage.
Proof.
  intros n n' H%(f_equal chars). unfold duplicatedMessage in H.
  rewrite !chars_app in H.
  do 2 apply app_inv_head in H. apply app_inv_tail in H. by apply chars_inj.
Qed.

Lemma backtick_notDuplicated (m : string) :
  String.get 4 m = Some "`"%char → notDuplicated m.
Proof. intros H n ->. vm_compute in H. discriminate. Qed.

Lemma nonExistingLinked_notDuplicated (p : string) :
  notDuplicated (nonExistingLinkedMessage p).
Proof. intros n H%(f_equal (String.get 12)). vm_compute in H. discriminate. Qed.

Lemma nonExistingIgnore_notDuplicated (p : string) :
  notDuplicated (nonExistingIgnoreMessage p).
Proof. intros n H%(f_equal (String.get 12)). vm_compute in H. discriminate. Qed.

Lemma dependentMessage_notDuplicated (dependent ignoredPackage : string) :
  notDuplicated (dependentMessage dependent ignoredPackage).
Proof.
  intros n H%(f_equal (λ s, rev (chars s))).
  unfold dependentMessage, duplicatedMessage in H.
  rewrite !chars_app, !rev_app_distr in H.
  vm_compute in H. discriminate.
Qed.

(** ** Validation: what [parse] returns *)

Section ParseProperties.

Context {lib : Collaborators}.

(** What [normalizePackageNames] returns, when micromatch lets it return:
    the names micromatch resolves the patterns to, and the patterns, in the
    order given, for which [isMatch] said no on every known name. *)
Lemma normalizePackageNames_Ok (patterns pkgNames : list string)
    (r : list string * list string) :
  normalizePackageNames patterns pkgNames = Ok r →
  micromatch pkgNames patterns = Ok r.1
  ∧ r.2 `sublist_of` patterns
  ∧ (∀ p, p ∈ r.2 ↔ p ∈ patterns ∧ ∀ n, n ∈ pkgNames → isMatch n p = Ok false)
  ∧ (∀ p, p ∈ patterns → p ∉ r.2 → ∃ n, n ∈ pkgNames ∧ isMatch n p = Ok true).
Proof.
  unfold normalizePackageNames.
  destruct (micromatch pkgNames patterns) as [matching|e]; simpl; [|done].
  destruct (Arr.filter _ patterns) as [kept|e] eqn:Hf; simpl; [|done].
  intros [= <-]. simpl. apply filter_Ok in Hf as (Hsub & Hin & Hret).
  assert (Hyes : ∀ p,
    (Arr.some (λ pkgName, isMatch pkgName p) pkgNames ≫= (λ matched, Ok (negb matched)))
    = Ok true ↔ ∀ n, n ∈ pkgNames → isMatch n p = Ok false).
  { intros p. rewrite <- some_false.
    destruct (Arr.some _ pkgNames) as [[]|e]; simpl; split; congruence. }
  split; [done|]. split; [done|]. split.
  - intros p. by rewrite Hin, Hyes.
  - intros p Hp Hnot. destruct (Hret p Hp) as [b Hb].
    destruct b; [destruct Hnot; by apply Hin|].
    apply some_true.
    destruct (Arr.some _ pkgNames) as [[]|e]; simpl in Hb; congruence.
Qed.

Lemma parse_eq (json : WrittenConfig.t) (packages : Workspace.Packages) :
  parse json packages =
    match collect json packages with
    | Ok [] => build json (pkgNamesOf packages)
    | Ok (m :: ms) => Throw (ValidationError (validationHeader +:+ Str.join nl (m :: ms)))
    | Throw e => Throw e
    end.
Proof. unfold parse. by destruct collect as [[|m ms]|e]. Qed.

Lemma collect_eq (json : WrittenConfig.t) (packages : Workspace.Packages) :
  collect json packages =
    match checkedMessages json packages with
    | Ok messages =>
        match experimentalMessages json with
        | Ok experimental => Ok (messages ++ experimental)
        | Throw e => Throw e
        end
    | Throw e => Throw e
    end.
Proof.
  unfold collect. destruct checkedMessages; [|done]. simpl.
  by destruct experimentalMessages.
Qed.

Lemma checkedMessages_eq (json : WrittenConfig.t) (packages : Workspace.Packages) :
  checkedMessages json packages =
    match linkedMessages json (pkgNamesOf packages) with
    | Ok linked =>
        match ignoreMessages json packages (pkgNamesOf packages) with
        | Ok ignore =>
            Ok (changelogMessages json ++ accessMessages json ++ commitMessages json
                ++ baseBranchMessages json ++ linked
                ++ updateInternalDependenciesMessages json ++ ignore)
        | Throw e => Throw e
        end
    | Throw e => Throw e
    end.
Proof.
  unfold checkedMessages. destruct linkedMessages; [|done]. simpl.
  destruct ignoreMessages; [|done]. simpl. by rewrite <- !app_assoc.
Qed.


Lemma checkedMessages_Ok (json : WrittenConfig.t) (packages : Workspace.Packages)
    (messages : list string) :
  checkedMessages json packages = Ok messages →
  ∃ linked ignore,
    linkedMessages json (pkgNamesOf packages) = Ok linked
    ∧ ignoreMessages json packages (pkgNamesOf packages) = Ok ignore
    ∧ messages = changelogMessages json ++ accessMessages json ++ commitMessages json
                 ++ baseBranchMessages json ++ linked
                 ++ updateInternalDependenciesMessages json ++ ignore.
Proof.
  rewrite checkedMessages_eq.
  destruct linkedMessages as [linked|]; [|done].
  destruct ignoreMessages as [ignore|]; [|done].
  intros [= <-]. by exists linked, ignore.
Qed.

Lemma collect_Ok (json : WrittenConfig.t) (packages : Workspace.Packages)
    (messages : list string) :
  collect json packages = Ok messages →
  ∃ checked experimental,
    checkedMessages json packages = Ok checked
    ∧ experimentalMessages json = Ok experimental
    ∧ messages = checked ++ experimental.
Proof.
  rewrite collect_eq.
  destruct checkedMessages as [checked|]; [|done].
  destruct experimentalMessages as [experimental|]; [|done].
  intros [= <-]. by exists checked, experimental.
Qed.

(** A configuration is returned only when nothing was collected. *)
Lemma parse_Ok (json : WrittenConfig.t) (packages : Workspace.Packages) (cfg : Config.t) :
  parse json packages = Ok cfg →
  collect json packages = Ok []
  ∧ checkedMessages json packages = Ok []
  ∧ build json (pkgNamesOf packages) = Ok cfg.
Proof.
  rewrite parse_eq. destruct collect as [[|m ms]|e] eqn:Hc; try done.
  intros Hb. split; [done|]. split; [|done].
  apply collect_Ok in Hc as (checked & experimental & Hch & _ & Hnil).
  symmetry in Hnil. by apply app_eq_nil in Hnil as [-> _].
Qed.

(** A pass that collected something does not end in a configuration. *)
Lemma parse_collected (json : WrittenConfig.t) (packages : Workspace.Packages)
    (messages : list string) :
  collect json packages = Ok messages → messages ≠ [] →
  parse json packages
  = Throw (ValidationError (validationHeader +:+ Str.join nl messages)).
Proof. rewrite parse_eq. intros -> H. by destruct messages. Qed.

Lemma checkedMessages_nil (json : WrittenConfig.t) (packages : Workspace.Packages) :
  checkedMessages json packages = Ok [] →
  changelogMessages json = [] ∧ accessMessages json = []
  ∧ commitMessages json = [] ∧ baseBranchMessages json = []
  ∧ linkedMessages json (pkgNamesOf packages) = Ok []
  ∧ updateInternalDependenciesMessages json = []
  ∧ ignoreMessages json packages (pkgNamesOf packages) = Ok [].
Proof.
  intros (linked & ignore & -> & -> & H)%checkedMessages_Ok. symmetry in H.
  repeat (apply app_eq_nil in H as [? H]). by subst.
Qed.

(** The groups of the configuration are the groups of the raw one,
    resolved. *)
Lemma map_resolved (pkgNames : list string) (groups linked : list (list string)) :
  Arr.map (λ linkedGroup,
             resolved ← normalizePackageNames linkedGroup pkgNames; Ok resolved.1)
          groups = Ok linked
  ↔ ∃ resolved, resolveGroups pkgNames groups = Ok resolved ∧ linked = resolved.*1.
Proof.
  unfold resolveGroups. revert linked.
  induction groups as [|g groups IH]; simpl; intros linked.
  - split; [intros [= <-]; by exists []|by intros (? & [= <-] & ->)].
  - destruct (normalizePackageNames g pkgNames) as [r|e]; simpl.
    + destruct (Arr.map _ groups) as [linked'|e] eqn:Hl; simpl.
      * destruct (proj1 (IH linked') eq_refl) as (resolved & -> & ->). simpl.
        split; [intros [= <-]; by eexists|by intros (? & [= <-] & ->)].
      * destruct (Arr.map (λ linkedGroup, normalizePackageNames linkedGroup pkgNames)
                    groups) as [resolved|e'] eqn:Hr; simpl.
        -- assert (Throw e = Ok resolved.*1); [|done].
           apply IH. by exists resolved.
        -- split; [done|]. by intros (? & ? & _).
    + split; [done|]. by intros (? & ? & _).
Qed.

(** What [build] puts in each field. *)
Lemma build_Ok (json : WrittenConfig.t) (pkgNames : list string) (cfg : Config.t) :
  build json pkgNames = Ok cfg →
  Config.changelog cfg =
    getNormalisedChangelogOption
      (default (JString "@changesets/cli/changelog") (WrittenConfig.changelog json))
  ∧ Config.access cfg = default (JString "restricted") (normalizedAccess json)
  ∧ Config.commit cfg = default (JBool false) (WrittenConfig.commit json)
  ∧ Config.baseBranch cfg = default (JString "master") (WrittenConfig.baseBranch json)
  ∧ Config.updateInternalDependencies cfg =
      default (JString "patch") (WrittenConfig.updateInternalDependencies json)
  ∧ Config.bumpVersionsWithWorkspaceProtocolOnly cfg =
      match WrittenConfig.bumpVersionsWithWorkspaceProtocolOnly json with
      | Some (JBool true) => true
      | _ => false
      end
  ∧ match WrittenConfig.linked json with
    | None => Config.linked cfg = []
    | Some v => ∃ groups resolved,
                  asGroups v = Some groups
                  ∧ resolveGroups pkgNames groups = Ok resolved
                  ∧ Config.linked cfg = resolved.*1
    end
  ∧ match WrittenConfig.ignore json with
    | None => Config.ignore cfg = []
    | Some v => ∃ ignore, asStrings v = Some ignore
                          ∧ micromatch pkgNames ignore = Ok (Config.ignore cfg)
    end
  ∧ experimentalFlag json "onlyUpdatePeerDependentsWhenOutOfRange"
    = Ok (Config.onlyUpdatePeerDependentsWhenOutOfRange
            (Config.___experimentalUnsafeOptions_WILL_CHANGE_IN_PATCH cfg))
  ∧ experimentalFlag json "useCalculatedVersionForSnapshots"
    = Ok (Config.useCalculatedVersionForSnapshots
            (Config.___experimentalUnsafeOptions_WILL_CHANGE_IN_PATCH cfg)).
Proof.
  unfold build.
  intros (linked & Hl & (ignore & Hi & (f1 & Hf1 & (f2 & Hf2 & [= <-])%bind_Ok)%bind_Ok)%bind_Ok)%bind_Ok.
  simpl. do 6 (split; [done|]). split; [|split; [|done]].
  - destruct (WrittenConfig.linked json) as [v|]; [|by injection Hl as <-].
    destruct (asGroups v) as [groups|]; [|done].
    apply map_resolved in Hl as (resolved & Hr & ->). by exists groups, resolved.
  - destruct (WrittenConfig.ignore json) as [v|]; [|by injection Hi as <-].
    destruct (asStrings v) as [ig|]; [|done].
    apply bind_Ok in Hi as (r & Hr & [= <-]).
    exists ig. split; [done|]. by apply normalizePackageNames_Ok in Hr as [? _].
Qed.

(** *** The loop over the linked groups *)

Lemma scanLinked_from (pkgNames : list string) (groups : list (list string))
    (found dup messages : list string) :
  Arr.forOf (scanLinkedGroup pkgNames) (found, dup, messages) groups
  = resolved ← resolveGroups pkgNames groups;
    Ok (scanGroup (resolvedNames resolved) (found, dup),
        messages ++ unmatchedLinked resolved).
Proof.
  unfold resolveGroups. revert found dup messages.
  induction groups as [|g groups IH]; intros found dup messages; simpl.
  - by rewrite app_nil_r.
  - destruct (normalizePackageNames g pkgNames) as [[matching unmatched]|e]; simpl;
      [|done].
    destruct (scanGroup matching (found, dup)) as [found1 dup1] eqn:Hscan. simpl.
    rewrite IH. destruct (Arr.map _ groups) as [resolved|e]; simpl; [|done].
    unfold resolvedNames, unmatchedLinked. simpl.
    by rewrite scanGroup_app, Hscan, app_assoc.
Qed.

Lemma scanLinked_eq (pkgNames : list string) (groups : list (list string)) :
  scanLinked pkgNames groups
  = resolved ← resolveGroups pkgNames groups;
    Ok (scanGroup (resolvedNames resolved) ([], []), unmatchedLinked resolved).
Proof. unfold scanLinked. by rewrite scanLinked_from. Qed.

(** The messages of a well-shaped [linked] option: the unmatched patterns,
    then one message for each name of the set of duplicates. *)
Lemma linkedMessages_valid (json : WrittenConfig.t) (pkgNames : list string)
    (v : JSON) (groups : list (list string)) :
  WrittenConfig.linked json = Some v → asGroups v = Some groups →
  linkedMessages json pkgNames
  = resolved ← resolveGroups pkgNames groups;
    Ok (unmatchedLinked resolved
        ++ (duplicatedMessage <$> (scanGroup (resolvedNames resolved) ([], [])).2)).
Proof.
  intros Hv Hg. unfold linkedMessages. rewrite Hv, Hg, scanLinked_eq.
  destruct (resolveGroups pkgNames groups) as [resolved|e]; simpl; [|done].
  by destruct (scanGroup _ _).
Qed.

Lemma resolveGroups_lookup (pkgNames : list string) (groups : list (list string))
    (resolved : list (list string * list string)) (i : nat) :
  resolveGroups pkgNames groups = Ok resolved →
  (∀ g, groups !! i = Some g →
     ∃ r, resolved !! i = Some r ∧ normalizePackageNames g pkgNames = Ok r)
  ∧ (∀ r, resolved !! i = Some r →
       ∃ g, groups !! i = Some g ∧ normalizePackageNames g pkgNames = Ok r).
Proof.
  intros H%map_Ok. split.
  - intros g Hg. by eapply Forall2_lookup_l in H.
  - intros r Hr. by eapply Forall2_lookup_r in H.
Qed.

Lemma resolveGroups_returns (pkgNames : list string) (groups : list (list string)) :
  (∀ g, g ∈ groups → returns (normalizePackageNames g pkgNames)) →
  returns (resolveGroups pkgNames groups).
Proof. apply map_returns. Qed.

(** *** The check of the ignore list *)

Lemma elem_of_dependentsMessages (packages : Workspace.Packages)
    (ignore : list string) (m : string) :
  m ∈ dependentsMessages packages ignore
  ↔ ∃ ignoredPackage dependent,
      ignoredPackage ∈ ignore
      ∧ dependent ∈ default [] (getDependentsGraph packages ignoredPackage)
      ∧ (dependent ∉ ignore)
      ∧ m = dependentMessage dependent ignoredPackage.
Proof.
  unfold dependentsMessages.
  rewrite list_elem_of_In, in_flat_map. split.
  - intros (P & HP%list_elem_of_In & (D & HD%list_elem_of_In & Hm)%in_flat_map).
    destruct (Str.includes ignore D) eqn:E; simpl in Hm; [done|].
    destruct Hm as [<-|[]]. exists P, D. by apply includes_false in E.
  - intros (P & D & HP & HD & HnD & ->). exists P. split; [by apply list_elem_of_In|].
    apply in_flat_map. exists D. split; [by apply list_elem_of_In|].
    apply includes_false in HnD. rewrite HnD. by left.
Qed.

Lemma asStrings_truthy (v : JSON) (strings : list string) :
  asStrings v = Some strings → truthy v = true.
Proof. by destruct v. Qed.

Lemma ignoreMessages_valid (json : WrittenConfig.t) (packages : Workspace.Packages)
    (pkgNames : list string) (v : JSON) (ignore : list string) :
  WrittenConfig.ignore json = Some v → asStrings v = Some ignore →
  ignoreMessages json packages pkgNames
  = resolved ← normalizePackageNames ignore pkgNames;
    Ok (map nonExistingIgnoreMessage resolved.2 ++ dependentsMessages packages ignore).
Proof.
  intros Hv Hi. unfold ignoreMessages.
  rewrite Hv, (asStrings_truthy _ _ Hi), Hi.
  by destruct (normalizePackageNames ignore pkgNames) as [[]|].
Qed.

(** *** When the pass returns, and what [parse] makes of it *)

Lemma linkedMessages_returns (json : WrittenConfig.t) (pkgNames : list string) :
  (∀ v groups g,
     WrittenConfig.linked json = Some v → asGroups v = Some groups → g ∈ groups →
     returns (normalizePackageNames g pkgNames)) →
  returns (linkedMessages json pkgNames).
Proof.
  intros H. destruct (WrittenConfig.linked json) as [v|] eqn:Hv;
    [|unfold linkedMessages; rewrite Hv; by eexists].
  destruct (asGroups v) as [groups|] eqn:Hg;
    [|unfold linkedMessages; rewrite Hv, Hg; by eexists].
  rewrite (linkedMessages_valid _ _ _ _ Hv Hg).
  destruct (resolveGroups_returns pkgNames groups) as [resolved ->]; [|by eexists].
  intros g Hin. by eapply H.
Qed.

Lemma ignoreMessages_returns (json : WrittenConfig.t) (packages : Workspace.Packages)
    (pkgNames : list string) :
  (∀ v ignore,
     WrittenConfig.ignore json = Some v → asStrings v = Some ignore →
     returns (normalizePackageNames ignore pkgNames)) →
  returns (ignoreMessages json packages pkgNames).
Proof.
  intros H. unfold ignoreMessages.
  destruct (WrittenConfig.ignore json) as [v|] eqn:Hv; [|by eexists].
  destruct (truthy v); [|by eexists].
  destruct (asStrings v) as [ignore|] eqn:Hi; [|by eexists].
  destruct (H v ignore eq_refl Hi) as [[matching unmatched] ->]. by eexists.
Qed.



(** C10: the workspace-protocol flag of a returned configuration is true
    exactly when the raw value is the boolean true; the raw value plays no
    part in the messages collected, and with any other raw value in its
    place validation still succeeds, with the flag false. *)
Theorem bump_flag_is_not_validated (json : WrittenConfig.t)
    (packages : Workspace.Packages) (cfg : Config.t) :
  parse json packages = Ok cfg →
  (Config.bumpVersionsWithWorkspaceProtocolOnly cfg = true
   ↔ WrittenConfig.bumpVersionsWithWorkspaceProtocolOnly json = Some (JBool true))
  ∧ (∀ v : option JSON, collect (withBump v json) packages = collect json packages)
  ∧ (∀ v : option JSON, v ≠ Some (JBool true) →
       ∃ cfg', parse (withBump v json) packages = Ok cfg'
               ∧ Config.bumpVersionsWithWorkspaceProtocolOnly cfg' = false).
Proof.
  intros Hp. pose proof Hp as (Hc & _ & Hb)%parse_Ok.
  split; [|split].
  - apply build_Ok in Hb as (_ & _ & _ & _ & _ & -> & _).
    destruct (WrittenConfig.bumpVersionsWithWorkspaceProtocolOnly json) as [[| [] | | | |]|];
      split; done.
  - done.
  - intros v Hv. rewrite parse_eq.
    change (collect (withBump v json) packages) with (collect json packages).
    rewrite Hc. revert Hb. unfold build.
    intros (linked & Hl & (ignore & Hi & (f1 & Hf1 & (f2 & Hf2 & _)%bind_Ok)%bind_Ok)%bind_Ok)%bind_Ok.
    cbn [WrittenConfig.linked WrittenConfig.ignore withBump].
    rewrite Hl. simpl. rewrite Hi. simpl.
    change (experimentalFlag (withBump v json)) with (experimentalFlag json).
    rewrite Hf1. simpl. rewrite Hf2. simpl.
    eexists; split; [reflexivity|]. simpl.
    by destruct v as [[| [] | | | |]|].
Qed.

(** A truthy value that is not an array of strings is reported. *)
Lemma truthy_malformed_ignore_reported (json : WrittenConfig.t)
    (packages : Workspace.Packages) (v : JSON) :
  WrittenConfig.ignore json = Some v → truthy v = true → asStrings v = None →
  ∃ m, ignoreMessages json packages (pkgNamesOf packages) = Ok [m]
       ∧ ∀ cfg, parse json packages ≠ Ok cfg.
Proof.
  intros Hv Ht Hs. unfold ignoreMessages. rewrite Hv, Ht, Hs.
  eexists. split; [reflexivity|].
  intros cfg (_ & Hnil & _)%parse_Ok.
  apply checkedMessages_nil in Hnil as (_ & _ & _ & _ & _ & _ & Hnil).
  unfold ignoreMessages in Hnil. by rewrite Hv, Ht, Hs in Hnil.
Qed.

(** C8, on the code: for each of the present values [null], [false], [0] and
    the empty string, none of which is an array of strings, the check of the
    ignore list adds no message, whatever the other fields are; with nothing
    else set the pass collects no message at all, and [parse] then fails with
    a TypeError where it resolves the ignore list. *)
Theorem falsy_ignore_is_not_reported (packages : Workspace.Packages) :
  Forall (λ v : JSON,
            asStrings v = None
            ∧ (∀ json pkgNames,
                 ignoreMessages (withIgnore (Some v) json) packages pkgNames = Ok [])
            ∧ collect (withIgnore (Some v) emptyWrittenConfig) packages = Ok []
            ∧ parse (withIgnore (Some v) emptyWrittenConfig) packages = Throw TypeError)
         [JNull; JBool false; JNumber 0; JString ""].
Proof. repeat (constructor; [repeat split; done|]). constructor. Qed.

(** C4, on the code: with [null] for the ignore list, and nothing else set,
    [parse] neither returns a configuration nor fails with the validation
    error; the same happens with [null] for the experimental options, even
    after a violation was collected. *)
Theorem parse_can_fail_with_a_TypeError (packages : Workspace.Packages) :
  let ignoreNull := withIgnore (Some JNull) emptyWrittenConfig in
  let experimentalNull := {|
    WrittenConfig.changelog := None;
    WrittenConfig.commit := Some (JNumber 3);
    WrittenConfig.linked := None;
    WrittenConfig.access := None;
    WrittenConfig.baseBranch := None;
    WrittenConfig.updateInternalDependencies := None;
    WrittenConfig.ignore := None;
    WrittenConfig.bumpVersionsWithWorkspaceProtocolOnly := None;
    WrittenConfig.___experimentalUnsafeOptions_WILL_CHANGE_IN_PATCH := Some JNull
  |} in
  parse ignoreNull packages = Throw TypeError
  ∧ (∀ message, parse ignoreNull packages ≠ Throw (ValidationError message))
  ∧ (∀ cfg, parse ignoreNull packages ≠ Ok cfg)
  ∧ (∃ message, checkedMessages experimentalNull packages = Ok [message])
  ∧ parse experimentalNull packages = Throw TypeError.
Proof. repeat split; try done. by eexists. Qed.

End ParseProperties.

Section GraphInvariants.

Context {lib : Collaborators}.

(** *** The closure check on the ignore list *)

Lemma accepted_ignore_closed (json : WrittenConfig.t) (packages : Workspace.Packages)
    (v : JSON) (ignore : list string) (cfg : Config.t) (P D : string) :
  WrittenConfig.ignore json = Some v → asStrings v = Some ignore →
  parse json packages = Ok cfg →
  P ∈ ignore → D ∈ default [] (getDependentsGraph packages P) → D ∈ ignore.
Proof.
  intros Hv Hi (_ & Hnil & _)%parse_Ok HP HD.
  apply checkedMessages_nil in Hnil as (_ & _ & _ & _ & _ & _ & Hnil).
  rewrite (ignoreMessages_valid _ _ _ _ _ Hv Hi) in Hnil.
  apply bind_Ok in Hnil as (r & _ & [= [_ Hdep]%app_eq_nil]).
  destruct (decide (D ∈ ignore)) as [|HnD]; [done|].
  assert (Hin : dependentMessage D P ∈ dependentsMessages packages ignore)
    by (apply elem_of_dependentsMessages; by exists P, D).
  rewrite Hdep in Hin. by apply elem_of_nil in Hin.
Qed.

(** A message of the ignore check is a message of the pass. *)
Lemma ignoreMessages_collected (json : WrittenConfig.t) (packages : Workspace.Packages)
    (ignore messages : list string) (m : string) :
  ignoreMessages json packages (pkgNamesOf packages) = Ok ignore →
  collect json packages = Ok messages →
  m ∈ ignore → m ∈ messages.
Proof.
  intros Hi (checked & experimental & Hch & _ & ->)%collect_Ok Hm.
  apply checkedMessages_Ok in Hch as (linked & ignore' & _ & Hi' & ->).
  assert (ignore' = ignore) as -> by congruence.
  rewrite !elem_of_app. left. do 6 right. done.
Qed.

Lemma linkedMessages_collected (json : WrittenConfig.t) (packages : Workspace.Packages)
    (linked messages : list string) (m : string) :
  linkedMessages json (pkgNamesOf packages) = Ok linked →
  collect json packages = Ok messages →
  m ∈ linked → m ∈ messages.
Proof.
  intros Hl (checked & experimental & Hch & _ & ->)%collect_Ok Hm.
  apply checkedMessages_Ok in Hch as (linked' & ignore & Hl' & _ & ->).
  assert (linked' = linked) as -> by congruence.
  rewrite !elem_of_app. left. do 4 right. by left.
Qed.

(** What a message of the pass does to [parse]. *)
Lemma collected_rejected (json : WrittenConfig.t) (packages : Workspace.Packages)
    (messages : list string) (m : string) :
  collect json packages = Ok messages → m ∈ messages →
  parse json packages
  = Throw (ValidationError (validationHeader +:+ Str.join nl messages)).
Proof.
  intros Hc Hm. apply parse_collected; [done|]. intros ->. by apply elem_of_nil in Hm.
Qed.

(** X20: the closure that validation enforces is on the ignore list as it
    is written. When [parse] returns a configuration, every dependent, in the
    dependents graph, of an entry of the written list is an entry of the
    written list. A written list that breaks this is never accepted: when
    micromatch lets the check of the list return, the message naming the
    dependent and the entry is among its messages, and a pass that returns
    its messages has that one among them and ends in the validation error made
    of them all. *)
Theorem ignore_list_closed_as_written (json : WrittenConfig.t)
    (packages : Workspace.Packages) (v : JSON) (ignore : list string) :
  WrittenConfig.ignore json = Some v →
  asStrings v = Some ignore →
  (∀ cfg : Config.t, parse json packages = Ok cfg →
     ∀ ignoredPackage dependent : string,
       ignoredPackage ∈ ignore →
       dependent ∈ default [] (getDependentsGraph packages ignoredPackage) →
       dependent ∈ ignore)
  ∧ (∀ ignoredPackage dependent : string,
       ignoredPackage ∈ ignore →
       dependent ∈ default [] (getDependentsGraph packages ignoredPackage) →
       dependent ∉ ignore →
       (∀ cfg : Config.t, parse json packages ≠ Ok cfg)
       ∧ (returns (normalizePackageNames ignore (pkgNamesOf packages)) →
          ∃ messages,
            ignoreMessages json packages (pkgNamesOf packages) = Ok messages
            ∧ dependentMessage dependent ignoredPackage ∈ messages)
       ∧ (∀ messages, collect json packages = Ok messages →
            dependentMessage dependent ignoredPackage ∈ messages
            ∧ parse json packages
              = Throw (ValidationError (validationHeader +:+ Str.join nl messages)))).
Proof.
  intros Hv Hi. split.
  - intros cfg Hcfg P D HP HD. by eapply accepted_ignore_closed.
  - intros P D HP HD HnD.
    assert (Hdep : dependentMessage D P ∈ dependentsMessages packages ignore)
      by (apply elem_of_dependentsMessages; by exists P, D).
    assert (Hin : ∀ messages,
      ignoreMessages json packages (pkgNamesOf packages) = Ok messages →
      dependentMessage D P ∈ messages).
    { intros messages. rewrite (ignoreMessages_valid _ _ _ _ _ Hv Hi).
      intros (r & _ & [= <-])%bind_Ok. apply elem_of_app. by right. }
    split; [|split].
    + intros cfg Hcfg. apply HnD. by eapply accepted_ignore_closed.
    + intros [r Hr]. eexists. split; [|apply Hin].
      all: by rewrite (ignoreMessages_valid _ _ _ _ _ Hv Hi), Hr.
    + intros messages Hc.
      pose proof Hc as (checked & experimental & Hch & _ & _)%collect_Ok.
      apply checkedMessages_Ok in Hch as (linked & ig & _ & Hig & _).
      assert (Hm : dependentMessage D P ∈ messages).
      { eapply ignoreMessages_collected; [exact Hig|exact Hc|by apply Hin]. }
      split; [done|]. by eapply collected_rejected.
Qed.

(** X15: when the entries of the ignore list are plain names, each matching
    itself only among the names of the packages, and micromatch resolves
    this list to the names that match one of its entries, the closure carries
    over to the resolved list of the configuration, for the dependents that
    are packages of the graph. *)
Lemma ignore_closed_for_plain_names (json : WrittenConfig.t)
    (packages : Workspace.Packages) (v : JSON) (ignore : list string)
    (cfg : Config.t) (P D : string) :
  (∀ matching, micromatch (pkgNamesOf packages) ignore = Ok matching →
     ∀ x, x ∈ matching
          ↔ x ∈ pkgNamesOf packages ∧ ∃ p, p ∈ ignore ∧ isMatch x p = Ok true) →
  (∀ p x, p ∈ ignore → x ∈ pkgNamesOf packages → isMatch x p = Ok true ↔ x = p) →
  WrittenConfig.ignore json = Some v → asStrings v = Some ignore →
  parse json packages = Ok cfg →
  P ∈ Config.ignore cfg →
  D ∈ default [] (getDependentsGraph packages P) →
  D ∈ pkgNamesOf packages →
  D ∈ Config.ignore cfg.
Proof.
  intros Hmm Hplain Hv Hi Hcfg HP HD HDpkg.
  pose proof Hcfg as (_ & _ & Hb)%parse_Ok.
  apply build_Ok in Hb as (_ & _ & _ & _ & _ & _ & _ & Hig & _).
  rewrite Hv in Hig. destruct Hig as (ignore' & Hi' & Hig).
  assert (ignore' = ignore) as -> by congruence.
  specialize (Hmm _ Hig).
  apply Hmm in HP as (HPpkg & p & Hp & Hmatch).
  apply (Hplain p P Hp HPpkg) in Hmatch as ->.
  assert (HDin : D ∈ ignore) by (by eapply accepted_ignore_closed).
  apply Hmm. split; [done|]. exists D. split; [done|]. by apply Hplain.
Qed.

(** *** Linked groups *)

Lemma changelogMessages_notDuplicated (json : WrittenConfig.t) (m : string) :
  m ∈ changelogMessages json → notDuplicated m.
Proof.
  unfold changelogMessages. intros Hm.
  destruct (WrittenConfig.changelog json) as [v|]; [|by apply elem_of_nil in Hm].
  destruct (changelogValid v); [by apply elem_of_nil in Hm|].
  apply list_elem_of_singleton in Hm as ->. by apply backtick_notDuplicated.
Qed.

Lemma accessMessages_notDuplicated (json : WrittenConfig.t) (m : string) :
  m ∈ accessMessages json → notDuplicated m.
Proof.
  unfold accessMessages. intros Hm.
  destruct (normalizedAccess json) as [v|]; [|by apply elem_of_nil in Hm].
  destruct (_ || _); [by apply elem_of_nil in Hm|].
  apply list_elem_of_singleton in Hm as ->. by apply backtick_notDuplicated.
Qed.

Lemma commitMessages_notDuplicated (json : WrittenConfig.t) (m : string) :
  m ∈ commitMessages json → notDuplicated m.
Proof.
  unfold commitMessages. intros Hm.
  destruct (WrittenConfig.commit json) as [v|]; [|by apply elem_of_nil in Hm].
  destruct (isBoolean v); [by apply elem_of_nil in Hm|].
  apply list_elem_of_singleton in Hm as ->. by apply backtick_notDuplicated.
Qed.

Lemma baseBranchMessages_notDuplicated (json : WrittenConfig.t) (m : string) :
  m ∈ baseBranchMessages json → notDuplicated m.
Proof.
  unfold baseBranchMessages. intros Hm.
  destruct (WrittenConfig.baseBranch json) as [v|]; [|by apply elem_of_nil in Hm].
  destruct (isString v); [by apply elem_of_nil in Hm|].
  apply list_elem_of_singleton in Hm as ->. by apply backtick_notDuplicated.
Qed.

Lemma updateInternalDependenciesMessages_notDuplicated
    (json : WrittenConfig.t) (m : string) :
  m ∈ updateInternalDependenciesMessages json → notDuplicated m.
Proof.
  unfold updateInternalDependenciesMessages. intros Hm.
  destruct (WrittenConfig.updateInternalDependencies json) as [v|];
    [|by apply elem_of_nil in Hm].
  destruct (_ || _); [by apply elem_of_nil in Hm|].
  apply list_elem_of_singleton in Hm as ->. by apply backtick_notDuplicated.
Qed.

Lemma ignoreMessages_notDuplicated (json : WrittenConfig.t)
    (packages : Workspace.Packages) (pkgNames ignore : list string) (m : string) :
  ignoreMessages json packages pkgNames = Ok ignore →
  m ∈ ignore → notDuplicated m.
Proof.
  unfold ignoreMessages.
  destruct (WrittenConfig.ignore json) as [v|]; [|by intros [= <-] ?%elem_of_nil].
  destruct (truthy v); [|by intros [= <-] ?%elem_of_nil].
  destruct (asStrings v) as [written|].
  - intros ([matching unmatched] & _ & [= <-])%bind_Ok [Hm|Hm]%elem_of_app.
    + apply list_elem_of_In, in_map_iff in Hm as (p & <- & _).
      apply nonExistingIgnore_notDuplicated.
    + apply elem_of_dependentsMessages in Hm as (P & D & _ & _ & _ & ->).
      apply dependentMessage_notDuplicated.
  - intros [= <-] ->%list_elem_of_singleton. by apply backtick_notDuplicated.
Qed.

Lemma flagMessages_notDuplicated (flag : string) (v : option JSON) (m : string) :
  m ∈ flagMessages flag v → notDuplicated m.
Proof.
  unfold flagMessages. intros Hm.
  destruct v as [v|]; [|by apply elem_of_nil in Hm].
  destruct (isBoolean v); [by apply elem_of_nil in Hm|].
  apply list_elem_of_singleton in Hm as ->. by apply backtick_notDuplicated.
Qed.

Lemma experimentalMessages_notDuplicated (json : WrittenConfig.t)
    (experimental : list string) (m : string) :
  experimentalMessages json = Ok experimental →
  m ∈ experimental → notDuplicated m.
Proof.
  unfold experimentalMessages.
  destruct (WrittenConfig.___experimentalUnsafeOptions_WILL_CHANGE_IN_PATCH json)
    as [options|]; [|by intros [= <-] ?%elem_of_nil].
  destruct (prop "onlyUpdatePeerDependentsWhenOutOfRange" options) as [f1|]; [|done].
  destruct (prop "useCalculatedVersionForSnapshots" options) as [f2|]; [|done].
  intros [= <-] [?|?]%elem_of_app; by eapply flagMessages_notDuplicated.
Qed.

Lemma unmatchedLinked_notDuplicated (resolved : list (list string * list string))
    (m : string) :
  m ∈ unmatchedLinked resolved → notDuplicated m.
Proof.
  unfold unmatchedLinked.
  intros (l & (r & -> & _)%list_elem_of_In%list_elem_of_fmap
             & Hm%list_elem_of_In)%list_elem_of_In%in_concat.
  apply list_elem_of_fmap in Hm as (p & -> & _).
  apply nonExistingLinked_notDuplicated.
Qed.

(** Outside the check of [linked] no message reports a duplicated name. *)
Lemma duplicated_in_linked (json : WrittenConfig.t) (packages : Workspace.Packages)
    (linked checked : list string) (n : string) :
  linkedMessages json (pkgNamesOf packages) = Ok linked →
  checkedMessages json packages = Ok checked →
  occurrences (duplicatedMessage n) checked = occurrences (duplicatedMessage n) linked.
Proof.
  intros Hl (linked' & ignore & Hl' & Hi & ->)%checkedMessages_Ok.
  assert (linked' = linked) as -> by congruence.
  assert (Hzero : ∀ l, (∀ m, m ∈ l → notDuplicated m) →
                       occurrences (duplicatedMessage n) l = 0).
  { intros l Hall. apply occurrences_none. intros m Hm. by apply Hall. }
  rewrite !occurrences_app.
  rewrite (Hzero _ (changelogMessages_notDuplicated json)).
  rewrite (Hzero _ (accessMessages_notDuplicated json)).
  rewrite (Hzero _ (commitMessages_notDuplicated json)).
  rewrite (Hzero _ (baseBranchMessages_notDuplicated json)).
  rewrite (Hzero _ (updateInternalDependenciesMessages_notDuplicated json)).
  rewrite (Hzero _ (λ m, ignoreMessages_notDuplicated json packages _ _ m Hi)).
  lia.
Qed.

Lemma duplicated_in_collected (json : WrittenConfig.t) (packages : Workspace.Packages)
    (linked messages : list string) (n : string) :
  linkedMessages json (pkgNamesOf packages) = Ok linked →
  collect json packages = Ok messages →
  occurrences (duplicatedMessage n) messages = occurrences (duplicatedMessage n) linked.
Proof.
  intros Hl (checked & experimental & Hch & He & ->)%collect_Ok.
  rewrite occurrences_app, (duplicated_in_linked _ _ _ _ _ Hl Hch).
  rewrite (occurrences_none _ experimental); [lia|].
  intros m Hm. by eapply experimentalMessages_notDuplicated.
Qed.

Lemma occurrences_elem_of (x : string) (l : list string) :
  x ∈ l ↔ occurrences x l ≠ 0.
Proof.
  unfold occurrences. split.
  - intros Hx Hlen. apply length_zero_iff_nil in Hlen.
    assert (x ∈ filter (λ m, m = x) l) by (by apply list_elem_of_filter).
    rewrite Hlen in H. by apply elem_of_nil in H.
  - intros Hlen. destruct (filter (λ m, m = x) l) as [|y ys] eqn:E; [done|].
    assert (Hy : y ∈ filter (λ m, m = x) l) by (rewrite E; by left).
    by apply list_elem_of_filter in Hy as [-> ?].
Qed.

(** Two groups that resolve to a name make it occur twice among the
    resolved names. *)
Lemma inTwoGroups_twice (pkgNames : list string) (groups : list (list string))
    (resolved : list (list string * list string)) (n : string) :
  resolveGroups pkgNames groups = Ok resolved →
  inTwoGroups pkgNames groups n → twice n (resolvedNames resolved).
Proof.
  intros Hr (i & j & gi & gj & mi & mj & Hij & Hi & Hj & Hmi & Hmj & Hni & Hnj).
  destruct (proj1 (resolveGroups_lookup _ _ _ i Hr) gi Hi) as (ri & Hri & Hgi).
  destruct (proj1 (resolveGroups_lookup _ _ _ j Hr) gj Hj) as (rj & Hrj & Hgj).
  apply normalizePackageNames_Ok in Hgi as [Hgi _].
  apply normalizePackageNames_Ok in Hgj as [Hgj _].
  assert (ri.1 = mi) as <- by congruence.
  assert (rj.1 = mj) as <- by congruence.
  unfold resolvedNames. apply (twice_concat _ i j ri.1 rj.1); try done.
  - by rewrite list_lookup_fmap, Hri.
  - by rewrite list_lookup_fmap, Hrj.
Qed.

(** Among the messages of the check of [linked], how often a name that two
    groups share is reported as duplicated: once. *)
Lemma duplicated_reported_once (json : WrittenConfig.t) (pkgNames : list string)
    (v : JSON) (groups : list (list string))
    (resolved : list (list string * list string)) (n : string) :
  WrittenConfig.linked json = Some v → asGroups v = Some groups →
  resolveGroups pkgNames groups = Ok resolved →
  twice n (resolvedNames resolved) →
  ∃ linked, linkedMessages json pkgNames = Ok linked
            ∧ occurrences (duplicatedMessage n) linked = 1.
Proof.
  intros Hv Hg Hr Htwice.
  rewrite (linkedMessages_valid _ _ _ _ Hv Hg), Hr. eexists. split; [reflexivity|].
  rewrite occurrences_app.
  rewrite (occurrences_none _ (unmatchedLinked resolved)).
  2: { intros m Hm. apply (unmatchedLinked_notDuplicated _ _ Hm n). }
  rewrite occurrences_fmap by apply _.
  destruct (scanGroup_spec (resolvedNames resolved) [] [])
    as (_ & _ & _ & Hin & Hnd & _).
  rewrite occurrences_NoDup; [done|apply Hnd; constructor|by apply Hin].
Qed.

(** X21: the groups of a configuration that [parse] returns are pairwise
    disjoint; and a name that two groups of the input resolve to is never
    accepted: when micromatch lets every group resolve, the check of [linked]
    reports the name by exactly one message, the message that quotes it, and a
    pass that returns its messages has that message exactly once among them
    and ends in the validation error made of them all. *)
Theorem linked_groups_disjoint (json : WrittenConfig.t) (packages : Workspace.Packages) :
  (∀ (cfg : Config.t) (i j : nat) (gi gj : list string) (n : string),
     parse json packages = Ok cfg →
     i ≠ j → Config.linked cfg !! i = Some gi → Config.linked cfg !! j = Some gj →
     n ∈ gi → n ∉ gj)
  ∧ (∀ (v : JSON) (groups : list (list string)) (n : string),
       WrittenConfig.linked json = Some v → asGroups v = Some groups →
       inTwoGroups (pkgNamesOf packages) groups n →
       (∀ cfg : Config.t, parse json packages ≠ Ok cfg)
       ∧ ((∀ g, g ∈ groups → returns (normalizePackageNames g (pkgNamesOf packages))) →
          ∃ linked,
            linkedMessages json (pkgNamesOf packages) = Ok linked
            ∧ occurrences (duplicatedMessage n) linked = 1)
       ∧ (∀ messages, collect json packages = Ok messages →
            occurrences (duplicatedMessage n) messages = 1
            ∧ parse json packages
              = Throw (ValidationError (validationHeader +:+ Str.join nl messages)))).
Proof.
  split.
  - intros cfg i j gi gj n Hcfg Hij Hi Hj Hgi Hgj.
    apply parse_Ok in Hcfg as (_ & Hnil & Hb).
    apply checkedMessages_nil in Hnil as (_ & _ & _ & _ & Hlinked & _).
    apply build_Ok in Hb as (_ & _ & _ & _ & _ & _ & Hl & _).
    destruct (WrittenConfig.linked json) as [v|] eqn:Hv.
    + destruct Hl as (groups & resolved & Hg & Hr & Hl). rewrite Hl in Hi, Hj.
      rewrite (linkedMessages_valid _ _ _ _ Hv Hg), Hr in Hlinked.
      injection Hlinked as [_ Hdup%fmap_nil_inv]%app_eq_nil.
      destruct (scanGroup_spec (resolvedNames resolved) [] [])
        as (_ & _ & _ & _ & _ & Hnd).
      destruct (Hnd Hdup) as (_ & Hnodup & _).
      eapply twice_not_NoDup; [|exact Hnodup].
      by eapply (twice_concat _ i j).
    + rewrite Hl in Hi. by rewrite lookup_nil in Hi.
  - intros v groups n Hv Hg Htwo.
    assert (Hcollected : ∀ messages, collect json packages = Ok messages →
              occurrences (duplicatedMessage n) messages = 1).
    { intros messages Hc.
      pose proof Hc as (checked & experimental & Hch & _ & _)%collect_Ok.
      apply checkedMessages_Ok in Hch as (linked & ignore & Hl & _ & _).
      rewrite (duplicated_in_collected _ _ _ _ _ Hl Hc).
      pose proof Hl as Hl2. rewrite (linkedMessages_valid _ _ _ _ Hv Hg) in Hl2.
      apply bind_Ok in Hl2 as (resolved & Hr & _).
      destruct (duplicated_reported_once json _ v groups resolved n Hv Hg Hr)
        as (linked' & Hl' & Hone); [by eapply inTwoGroups_twice|].
      congruence. }
    split; [|split].
    + intros cfg (Hc & _)%parse_Ok. by apply Hcollected in Hc.
    + intros [resolved Hr]%resolveGroups_returns.
      apply (duplicated_reported_once json _ v groups resolved n Hv Hg Hr).
      by eapply inTwoGroups_twice.
    + intros messages Hc. pose proof (Hcollected messages Hc) as Hone.
      split; [done|]. apply (collected_rejected _ _ _ (duplicatedMessage n) Hc).
      apply occurrences_elem_of. lia.
Qed.

End GraphInvariants.

(** ** The scenarios of the specification, and instances of the theorems *)

Ltac by_computation := apply (bool_decide_unpack _); vm_compute; exact I.

Example scenario_1_caret :
  rewrite Fixture.Range "^3.0.0" "4.0.0" = Ok "^4.0.0".
Proof. reflexivity. Qed.

Example scenario_2_workspace_tilde :
  rewrite Fixture.Range "workspace:~1.2.0" "2.0.0" = Ok "workspace:~2.0.0".
Proof. reflexivity. Qed.

Example scenario_4_star :
  rewrite Fixture.Range "*" "4.0.0" = Ok "*".
Proof. reflexivity. Qed.

Example scenario_5_dependent_not_ignored :
  Fixture.parse Fixture.ignoreDependency Fixture.twoPackages
  = Throw (ValidationError
             (validationHeader +:+ dependentMessage "other" "pkg-a")).
Proof. vm_compute. reflexivity. Qed.

Example scenario_6_linked_twice :
  Fixture.parse Fixture.linkedOverlapping Fixture.threePackages
  = Throw (ValidationError (validationHeader +:+ duplicatedMessage "pkg-2")).
Proof. vm_compute. reflexivity. Qed.



Lemma any_version_range_kept_witness :
  Fixture.Range (workspaceInner "workspace:*") = Some ""
  ∧ rewrite Fixture.Range "workspace:*" "2.0.0" = Ok "workspace:*".
Proof.
  split; [reflexivity|].
  exact (proj1 (any_version_range_kept Fixture.Range "workspace:*" "2.0.0" eq_refl)).
Defined.

Lemma rewrite_preserves_range_type_witness :
  validVersion "2.0.0" = true
  ∧ Fixture.Range (workspaceInner "workspace:~1.2.0") = Some "~1.2.0"
  ∧ ∃ r', rewrite Fixture.Range "workspace:~1.2.0" "2.0.0" = Ok r'
          ∧ getVersionRangeType r' = getVersionRangeType "workspace:~1.2.0"
          ∧ (Str.startsWith "workspace:" "workspace:~1.2.0" = true →
             Str.startsWith "workspace:" r' = true
             ∧ getVersionRangeType (Str.substr 10 r')
               = getVersionRangeType (Str.substr 10 "workspace:~1.2.0")).
Proof.
  split; [reflexivity|]. split; [reflexivity|].
  exact (rewrite_preserves_range_type Fixture.Range "workspace:~1.2.0" "2.0.0" "~1.2.0"
           eq_refl eq_refl).
Defined.

(** C1, on the code: with the one entry [pkg-*] in the ignore list,
    validation collects no message and succeeds, and the configuration ignores
    [pkg-a]; [other] depends on [pkg-a] and is not ignored. *)
Lemma ignored_by_glob_not_closed :
  Fixture.collect Fixture.ignoreByGlob Fixture.twoPackages = Ok []
  ∧ Fixture.parse Fixture.ignoreByGlob Fixture.twoPackages = Ok Fixture.ignoredByGlob
  ∧ "pkg-a" ∈ Config.ignore Fixture.ignoredByGlob
  ∧ "other" ∈ default [] (Fixture.getDependentsGraph Fixture.twoPackages "pkg-a")
  ∧ "other" ∉ Config.ignore Fixture.ignoredByGlob.
Proof. split; [by vm_compute|]. split; [by vm_compute|]. repeat split; by_computation. Qed.

(** C6, on the code: two groups name [pkg-2] and a third holds the empty
    pattern. Both of the first two resolve to [pkg-2], micromatch throws on the
    third, and the pass ends there: [parse] fails with the TypeError, and no
    message about [pkg-2] is reported. *)
Lemma linked_empty_pattern_throws :
  inTwoGroups (lib := Fixture.collaborators) (pkgNamesOf Fixture.threePackages)
    [["pkg-2"]; ["pkg-2"]; [""]] "pkg-2"
  ∧ Fixture.collect Fixture.linkedEmptyPattern Fixture.threePackages = Throw TypeError
  ∧ Fixture.parse Fixture.linkedEmptyPattern Fixture.threePackages = Throw TypeError
  ∧ ∀ message,
      Fixture.parse Fixture.linkedEmptyPattern Fixture.threePackages
      ≠ Throw (ValidationError message).
Proof.
  split; [|by vm_compute].
  exists 0, 1, ["pkg-2"], ["pkg-2"], ["pkg-2"], ["pkg-2"].
  split; [discriminate|]. do 4 (split; [by vm_compute|]). split; by_computation.
Qed.

Lemma ignore_list_closed_as_written_witness :
  (Fixture.parse Fixture.ignoreBoth Fixture.twoPackages
     = Ok (Fixture.configWith [] ["pkg-a"; "other"])
   ∧ "other" ∈ ["pkg-a"; "other"])
  ∧ Fixture.collect Fixture.ignoreDependency Fixture.twoPackages
    = Ok [dependentMessage "other" "pkg-a"]
  ∧ dependentMessage "other" "pkg-a" ∈ [dependentMessage "other" "pkg-a"]
  ∧ Fixture.parse Fixture.ignoreDependency Fixture.twoPackages
    = Throw (ValidationError
               (validationHeader +:+ Str.join nl [dependentMessage "other" "pkg-a"])).
Proof.
  assert (Hdep : "other" ∈ default [] (Fixture.getDependentsGraph
                                          Fixture.twoPackages "pkg-a"))
    by by_computation.
  split.
  - assert (Hok : Fixture.parse Fixture.ignoreBoth Fixture.twoPackages
                  = Ok (Fixture.configWith [] ["pkg-a"; "other"]))
      by (vm_compute; reflexivity).
    split; [exact Hok|].
    refine (proj1 (@ignore_list_closed_as_written Fixture.collaborators
                     Fixture.ignoreBoth Fixture.twoPackages
                     (Fixture.strings ["pkg-a"; "other"]) ["pkg-a"; "other"]
                     eq_refl eq_refl) _ Hok "pkg-a" "other" _ Hdep).
    by_computation.
  - assert (Hc : Fixture.collect Fixture.ignoreDependency Fixture.twoPackages
                 = Ok [dependentMessage "other" "pkg-a"])
      by (vm_compute; reflexivity).
    split; [exact Hc|].
    refine (proj2 (proj2 (proj2 (@ignore_list_closed_as_written Fixture.collaborators
                     Fixture.ignoreDependency Fixture.twoPackages
                     (Fixture.strings ["pkg-a"]) ["pkg-a"]
                     eq_refl eq_refl) "pkg-a" "other" _ Hdep _)) _ Hc).
    + by_computation.
    + by_computation.
Defined.

Lemma linked_groups_disjoint_witness :
  (Fixture.parse Fixture.linkedApart Fixture.threePackages
     = Ok (Fixture.configWith [["pkg-1"]; ["pkg-2"; "pkg-3"]] [])
   ∧ "pkg-1" ∉ ["pkg-2"; "pkg-3"])
  ∧ Fixture.collect Fixture.linkedOverlapping Fixture.threePackages
    = Ok [duplicatedMessage "pkg-2"]
  ∧ occurrences (duplicatedMessage "pkg-2") [duplicatedMessage "pkg-2"] = 1
  ∧ Fixture.parse Fixture.linkedOverlapping Fixture.threePackages
    = Throw (ValidationError
               (validationHeader +:+ Str.join nl [duplicatedMessage "pkg-2"])).
Proof.
  split.
  - assert (Hok : Fixture.parse Fixture.linkedApart Fixture.threePackages
                  = Ok (Fixture.configWith [["pkg-1"]; ["pkg-2"; "pkg-3"]] []))
      by (vm_compute; reflexivity).
    split; [exact Hok|].
    refine (proj1 (@linked_groups_disjoint Fixture.collaborators
                     Fixture.linkedApart Fixture.threePackages)
              _ 0 1 ["pkg-1"] ["pkg-2"; "pkg-3"] "pkg-1" Hok _ _ _ _).
    + discriminate.
    + vm_compute. reflexivity.
    + vm_compute. reflexivity.
    + by_computation.
  - assert (Hc : Fixture.collect Fixture.linkedOverlapping Fixture.threePackages
                 = Ok [duplicatedMessage "pkg-2"])
      by (vm_compute; reflexivity).
    split; [exact Hc|].
    refine (proj2 (proj2 (proj2 (@linked_groups_disjoint Fixture.collaborators
                     Fixture.linkedOverlapping Fixture.threePackages)
              _ [["pkg-1"; "pkg-2"]; ["pkg-2"; "pkg-3"]] "pkg-2"
              eq_refl eq_refl _)) _ Hc).
    exists 0, 1, ["pkg-1"; "pkg-2"], ["pkg-2"; "pkg-3"],
           ["pkg-1"; "pkg-2"], ["pkg-2"; "pkg-3"].
    split; [discriminate|]. do 4 (split; [reflexivity|]). split; by_computation.
Defined.


Lemma bump_flag_is_not_validated_witness :
  Fixture.parse (withBump (Some (JNumber 1)) emptyWrittenConfig) Fixture.twoPackages
    = Ok fallbackConfig
  ∧ (Config.bumpVersionsWithWorkspaceProtocolOnly fallbackConfig = true
     ↔ Some (JNumber 1) = Some (JBool true))
  ∧ Fixture.collect (withBump (Some (JString "yes"))
                       (withBump (Some (JNumber 1)) emptyWrittenConfig))
      Fixture.twoPackages
    = Fixture.collect (withBump (Some (JNumber 1)) emptyWrittenConfig) Fixture.twoPackages.
Proof.
  assert (Hok : Fixture.parse (withBump (Some (JNumber 1)) emptyWrittenConfig)
                  Fixture.twoPackages = Ok fallbackConfig)
    by (vm_compute; reflexivity).
  pose proof (@bump_flag_is_not_validated Fixture.collaborators
                (withBump (Some (JNumber 1)) emptyWrittenConfig)
                Fixture.twoPackages fallbackConfig Hok) as (Hiff & Hcollect & _).
  split; [exact Hok|]. split; [exact Hiff|].
  exact (Hcollect (Some (JString "yes"))).
Defined.

(** * Further properties of the code *)

(** ** The loop body on its own output *)

Lemma append_cons (c : ascii) (s t : string) : String c s +:+ t = String c (s +:+ t).
Proof. reflexivity. Qed.

Lemma digit_is_no_letter (c : ascii) :
  isDigit c = true → c ≠ "w"%char ∧ c ≠ "l"%char ∧ c ≠ "f"%char.
Proof. intros H; repeat split; intros ->; vm_compute in H; discriminate. Qed.

Lemma not_pinned_head (c : ascii) (s : string) :
  c ≠ "l"%char → c ≠ "f"%char → Str.includes PROTOCOL_PINNED (String c s) = false.
Proof.
  intros Hl Hf. apply includes_false. unfold PROTOCOL_PINNED.
  rewrite !elem_of_cons, elem_of_nil. intros [H|[H|[H|[H|[]]]]]; congruence.
Qed.

(** An operator in front of a bare version: never empty, never one of the
    four protocol texts, never under the workspace marker. *)
Lemma operator_version_plain (p v : string) :
  p ∈ ["^"; "~"; ">="; "<="; ">"; "<"; ""] → validVersion v = true →
  Str.eqb (p +:+ v) "" = false
  ∧ Str.includes PROTOCOL_PINNED (p +:+ v) = false
  ∧ Str.startsWith "workspace:" (p +:+ v) = false.
Proof.
  intros Hp (c & v' & -> & Hc)%validVersion_head.
  destruct (digit_is_no_operator c Hc) as (H1 & H2 & H3 & H4 & H5).
  destruct (digit_is_no_letter c Hc) as (H6 & H7 & H8).
  repeat (apply elem_of_cons in Hp as [->|Hp]; [
    rewrite ?append_cons; change ("" +:+ String c v') with (String c v');
    (split; [by apply bool_decide_eq_false|]);
    (split; [apply not_pinned_head; congruence|]);
    simpl; try reflexivity; by rewrite decide_False by congruence |]).
  by apply elem_of_nil in Hp.
Qed.

Section RewriterComposition.

Variable Range : string → option string.

Lemma rewrite_cases (r v r' : string) :
  rewrite Range r v = Ok r' →
  r' = r ∨ (r' = rewritten r v
            ∧ ∃ n, Range (workspaceInner r) = Some n ∧ Str.eqb n "" = false).
Proof.
  unfold rewrite. rewrite newRange_cases.
  destruct (_ || _); [intros [= <-]; by left|].
  destruct (Range (workspaceInner r)) as [n|] eqn:Hn; [|done].
  destruct (Str.eqb n "") eqn:E; intros [= <-]; [by left|].
  right. split; [done|]. by exists n.
Qed.

Lemma rewritten_facts (r v : string) :
  validVersion v = true →
  Str.eqb (rewritten r v) "" = false
  ∧ Str.includes PROTOCOL_PINNED (rewritten r v) = false
  ∧ Str.startsWith "workspace:" (rewritten r v) = Str.startsWith "workspace:" r
  ∧ workspaceInner (rewritten r v) = getVersionRangeType (workspaceInner r) +:+ v.
Proof.
  intros Hv. unfold rewritten.
  destruct (operator_version_plain (getVersionRangeType (workspaceInner r)) v
              (getVersionRangeType_values _) Hv) as (He & Hp & Hw).
  destruct (Str.startsWith "workspace:" r) eqn:Hr.
  - rewrite !append_cons. split; [by apply bool_decide_eq_false|].
    split; [by apply not_pinned_head|].
    unfold workspaceInner. rewrite <- !append_cons.
    rewrite (startsWith_app "workspace:"). split; [done|].
    apply (substr_app "workspace:").
  - change ("" +:+ ?s) with s. split; [done|]. split; [done|]. split; [done|].
    unfold workspaceInner at 1. by rewrite Hw.
Qed.

(** The loop body on a range it wrote itself. *)
Lemma newRange_rewritten (r v n' : string) :
  validVersion v = true →
  Range (workspaceInner (rewritten r v)) = Some n' →
  newRange Range (rewritten r v) v
  = if Str.eqb n' "" then Ok None else Ok (Some (rewritten r v)).
Proof.
  intros Hv Hn'. destruct (rewritten_facts r v Hv) as (He & Hp & Hw & Hi).
  rewrite newRange_cases, He, Hp, Hn'. cbn [orb].
  destruct (Str.eqb n' ""); [done|]. rewrite Hw, Hi.
  rewrite getVersionRangeType_prefix; [done|apply getVersionRangeType_values|done].
Qed.

(** X1: the loop body is idempotent. What it made of a declared range, for a
    bare new version, it leaves as it is when run again with the same
    version, provided semver parses the range that was written. *)
Theorem rewrite_idempotent (r v r' : string) :
  validVersion v = true →
  rewrite Range r v = Ok r' →
  (r' ≠ r → is_Some (Range (workspaceInner r'))) →
  rewrite Range r' v = Ok r'.
Proof.
  intros Hv Hr Hparse.
  destruct (decide (r' = r)) as [->|Hne]; [done|].
  destruct (rewrite_cases _ _ _ Hr) as [?|[-> _]]; [done|].
  destruct (Hparse Hne) as [n' Hn'].
  unfold rewrite. rewrite (newRange_rewritten r v n' Hv Hn').
  by destruct (Str.eqb n' "").
Qed.

(** X2: the last version wins. Rewriting for one bare version and then for
    another gives what rewriting for the second alone gives, when the first
    pass did rewrite and semver takes its output for a constrained range. *)
Theorem rewrite_last_version_wins (r v1 v2 r1 n1 : string) :
  validVersion v1 = true →
  rewrite Range r v1 = Ok r1 →
  r1 ≠ r →
  Range (workspaceInner r1) = Some n1 → n1 ≠ "" →
  rewrite Range r1 v2 = rewrite Range r v2.
Proof.
  intros Hv Hr Hne Hn1 Hn1e.
  destruct (rewrite_cases _ _ _ Hr) as [?|[-> (n & Hn & Hne')]]; [done|].
  destruct (rewritten_facts r v1 Hv) as (He & Hp & Hw & Hi).
  assert (Hr0 : Str.eqb r "" || Str.includes PROTOCOL_PINNED r = false).
  { revert Hr. unfold rewrite. rewrite newRange_cases.
    destruct (_ || _); [|done]. intros [= H]. by destruct Hne. }
  assert (Hn1e' : Str.eqb n1 "" = false) by (by apply bool_decide_eq_false).
  unfold rewrite.
  rewrite (newRange_cases Range r v2), Hr0, Hn, Hne'.
  rewrite newRange_cases, He, Hp, Hn1, Hn1e'. cbn [orb].
  rewrite Hw, Hi.
  rewrite getVersionRangeType_prefix; [done|apply getVersionRangeType_values|done].
Qed.

(** X3: the workspace marker is neither added nor dropped. For a bare new
    version, the range after the loop body is under the marker exactly when
    the declared range was. *)
Theorem rewrite_keeps_workspace_scope (r v r' : string) :
  validVersion v = true →
  rewrite Range r v = Ok r' →
  Str.startsWith "workspace:" r' = Str.startsWith "workspace:" r.
Proof.
  intros Hv Hr. destruct (rewrite_cases _ _ _ Hr) as [->|[-> _]]; [done|].
  by destruct (rewritten_facts r v Hv) as (_ & _ & Hw & _).
Qed.

End RewriterComposition.

(** ** What an accepted configuration looks like *)

Section AcceptedConfig.

Context {lib : Collaborators}.

Lemma isTheString_true (s : string) (v : JSON) :
  isTheString s v = true → v = JString s.
Proof. destruct v; try done. by intros ->%eqb_true. Qed.

(** A flag of the experimental options that drew no message is unset or a
    boolean, and comes out as a boolean. *)
Lemma experimentalFlag_boolean (json : WrittenConfig.t) (flag : string) (f : JSON) :
  (∀ options v,
     WrittenConfig.___experimentalUnsafeOptions_WILL_CHANGE_IN_PATCH json = Some options →
     prop flag options = Ok (Some v) → isBoolean v = true) →
  experimentalFlag json flag = Ok f → ∃ b, f = JBool b.
Proof.
  unfold experimentalFlag. intros Hvalid.
  destruct (WrittenConfig.___experimentalUnsafeOptions_WILL_CHANGE_IN_PATCH json)
    as [options|]; [|intros [= <-]; by eexists].
  destruct (prop flag options) as [[v|]|] eqn:Hp; simpl; try done.
  - intros [= <-]. specialize (Hvalid options v eq_refl Hp).
    destruct v; try done. by eexists.
  - intros [= <-]. by eexists.
Qed.

Lemma flagMessages_nil (flag : string) (v : JSON) :
  flagMessages flag (Some v) = [] → isBoolean v = true.
Proof. unfold flagMessages. by destruct (isBoolean v). Qed.

(** X8: a configuration that [parse] returns is well typed. Its changelog is
    [false] or a pair that starts with a string, its access is restricted or
    public, its commit and both experimental flags are booleans, its base
    branch is a string and its update policy is patch or minor. *)
Theorem accepted_config_well_typed (json : WrittenConfig.t)
    (packages : Workspace.Packages) (cfg : Config.t) :
  parse json packages = Ok cfg →
  (Config.changelog cfg = JBool false
   ∨ ∃ path options, Config.changelog cfg = JArray [JString path; options])
  ∧ (Config.access cfg = JString "restricted" ∨ Config.access cfg = JString "public")
  ∧ (∃ b, Config.commit cfg = JBool b)
  ∧ (∃ branch, Config.baseBranch cfg = JString branch)
  ∧ (Config.updateInternalDependencies cfg = JString "patch"
     ∨ Config.updateInternalDependencies cfg = JString "minor")
  ∧ (∃ b, Config.onlyUpdatePeerDependentsWhenOutOfRange
            (Config.___experimentalUnsafeOptions_WILL_CHANGE_IN_PATCH cfg) = JBool b)
  ∧ (∃ b, Config.useCalculatedVersionForSnapshots
            (Config.___experimentalUnsafeOptions_WILL_CHANGE_IN_PATCH cfg) = JBool b).
Proof.
  intros Hcfg. pose proof Hcfg as (Hc & Hnil & Hb)%parse_Ok.
  apply checkedMessages_nil in Hnil as (Hcl & Hac & Hco & Hbb & _ & Hup & _).
  apply build_Ok in Hb as (-> & -> & -> & -> & -> & _ & _ & _ & Hf1 & Hf2).
  apply collect_Ok in Hc as (checked & experimental & _ & Hexp & Hnil).
  symmetry in Hnil. apply app_eq_nil in Hnil as [_ ->].
  split; [|split; [|split; [|split; [|split; [|split]]]]].
  - unfold changelogMessages in Hcl.
    destruct (WrittenConfig.changelog json) as [v|]; simpl; [|right; by do 2 eexists].
    destruct (changelogValid v) eqn:Hv; [|done].
    destruct v as [|[]| | |items|]; simpl in Hv |- *; try done;
      try (by left); try (right; by do 2 eexists).
    destruct items as [|[] [|? []]]; try done. right; by do 2 eexists.
  - unfold accessMessages in Hac.
    destruct (normalizedAccess json) as [v|]; simpl; [|by left].
    destruct (isTheString "restricted" v) eqn:E1;
      [apply isTheString_true in E1 as ->; by left|].
    destruct (isTheString "public" v) eqn:E2;
      [apply isTheString_true in E2 as ->; by right|done].
  - unfold commitMessages in Hco.
    destruct (WrittenConfig.commit json) as [v|]; simpl; [|by eexists].
    destruct v; try done. by eexists.
  - unfold baseBranchMessages in Hbb.
    destruct (WrittenConfig.baseBranch json) as [v|]; simpl; [|by eexists].
    destruct v; try done. by eexists.
  - unfold updateInternalDependenciesMessages in Hup.
    destruct (WrittenConfig.updateInternalDependencies json) as [v|]; simpl; [|by left].
    destruct (isTheString "patch" v) eqn:E1;
      [apply isTheString_true in E1 as ->; by left|].
    destruct (isTheString "minor" v) eqn:E2;
      [apply isTheString_true in E2 as ->; by right|done].
  - eapply experimentalFlag_boolean; [|exact Hf1]. intros options v Ho Hp.
    unfold experimentalMessages in Hexp. rewrite Ho in Hexp.
    rewrite Hp in Hexp. simpl in Hexp.
    destruct (prop "useCalculatedVersionForSnapshots" options); [|done].
    simpl in Hexp. injection Hexp as [H _]%app_eq_nil. by apply flagMessages_nil in H.
  - eapply experimentalFlag_boolean; [|exact Hf2]. intros options v Ho Hp.
    unfold experimentalMessages in Hexp. rewrite Ho in Hexp.
    rewrite Hp in Hexp.
    destruct (prop "onlyUpdatePeerDependentsWhenOutOfRange" options); [|done].
    simpl in Hexp. injection Hexp as [_ H]%app_eq_nil. by apply flagMessages_nil in H.
Qed.

(** X9: the legacy access value is a spelling of restricted. With
    [private] for access, [parse] does what it does with [restricted], for
    every other field and every package graph; the two differ in the warning
    alone, which only [private] draws. *)
Theorem private_access_means_restricted (json : WrittenConfig.t)
    (packages : Workspace.Packages) :
  parse (withAccess (Some (JString "private")) json) packages
  = parse (withAccess (Some (JString "restricted")) json) packages
  ∧ warnings (withAccess (Some (JString "private")) json) = [privateAccessWarning]
  ∧ warnings (withAccess (Some (JString "restricted")) json) = [].
Proof. repeat split. Qed.

(** X10: the experimental options are only looked into, never checked
    themselves. With a present value that is neither [null] nor an object (a
    number, a string, a boolean, an array), [parse] does what it does when the
    options are absent: no message, and both flags false. *)
Theorem experimental_options_shape_unchecked (json : WrittenConfig.t)
    (packages : Workspace.Packages) (v : JSON) :
  v ≠ JNull → isObject v = false →
  parse (withExperimental (Some v) json) packages
  = parse (withExperimental None json) packages.
Proof. intros Hnull Hobj. by destruct v. Qed.

End AcceptedConfig.

(** ** Patterns that match no package *)

Section UnmatchedPatterns.

Context {lib : Collaborators}.

(** A pattern of a group that no package matches is reported by the check
    of [linked], when the check returns at all. *)
Lemma unmatched_linked_reported (json : WrittenConfig.t) (pkgNames : list string)
    (v : JSON) (groups : list (list string)) (linked g : list string) (p : string) :
  WrittenConfig.linked json = Some v → asGroups v = Some groups →
  linkedMessages json pkgNames = Ok linked →
  g ∈ groups → p ∈ g →
  (∀ n, n ∈ pkgNames → isMatch n p = Ok false) →
  nonExistingLinkedMessage p ∈ linked.
Proof.
  intros Hv Hg Hl Hin Hp Hno.
  rewrite (linkedMessages_valid _ _ _ _ Hv Hg) in Hl.
  apply bind_Ok in Hl as (resolved & Hr & [= <-]).
  apply list_elem_of_lookup in Hin as [i Hi].
  destruct (proj1 (resolveGroups_lookup _ _ _ i Hr) g Hi) as (r & Hri & Hgr).
  apply normalizePackageNames_Ok in Hgr as (_ & _ & Hunmatched & _).
  apply elem_of_app. left. unfold unmatchedLinked.
  apply list_elem_of_In, in_concat.
  exists (nonExistingLinkedMessage <$> r.2). split.
  - apply list_elem_of_In, list_elem_of_fmap. exists r. split; [done|].
    by eapply list_elem_of_lookup_2.
  - apply list_elem_of_In, list_elem_of_fmap_2, Hunmatched. done.
Qed.

(** When the check of [linked] drew no message, every pattern matched. *)
Lemma linked_patterns_matched (json : WrittenConfig.t) (pkgNames : list string)
    (v : JSON) (groups : list (list string)) (g : list string) (p : string) :
  WrittenConfig.linked json = Some v → asGroups v = Some groups →
  linkedMessages json pkgNames = Ok [] →
  g ∈ groups → p ∈ g →
  ∃ n, n ∈ pkgNames ∧ isMatch n p = Ok true.
Proof.
  intros Hv Hg Hl Hin Hp.
  pose proof Hl as Hl2. rewrite (linkedMessages_valid _ _ _ _ Hv Hg) in Hl2.
  apply bind_Ok in Hl2 as (resolved & Hr & _).
  apply list_elem_of_lookup in Hin as [i Hi].
  destruct (proj1 (resolveGroups_lookup _ _ _ i Hr) g Hi) as (r & Hri & Hgr).
  apply normalizePackageNames_Ok in Hgr as (_ & _ & Hunmatched & Hmatched).
  apply Hmatched; [done|]. intros [_ Hno]%Hunmatched.
  assert (H : nonExistingLinkedMessage p ∈ ([] : list string)); [|by apply elem_of_nil in H].
  eapply (unmatched_linked_reported json pkgNames v groups [] g p); try done.
  by apply list_elem_of_lookup_2 in Hi.
Qed.

(** X11: every pattern of the linked groups must match a package. When
    [parse] returns a configuration, each name or glob written in a group
    matches at least one package of the graph. A written pattern that matches
    none is never accepted: when micromatch lets every group resolve, the
    check of [linked] reports the pattern by its own message, and a pass that
    returns its messages has that message among them and ends in the
    validation error made of them all. *)
Theorem linked_patterns_must_match (json : WrittenConfig.t)
    (packages : Workspace.Packages) (v : JSON) (groups : list (list string)) :
  WrittenConfig.linked json = Some v →
  asGroups v = Some groups →
  (∀ cfg : Config.t, parse json packages = Ok cfg →
     ∀ g p, g ∈ groups → p ∈ g →
       ∃ n, n ∈ pkgNamesOf packages ∧ isMatch n p = Ok true)
  ∧ (∀ g p, g ∈ groups → p ∈ g →
       (∀ n, n ∈ pkgNamesOf packages → isMatch n p = Ok false) →
       (∀ cfg : Config.t, parse json packages ≠ Ok cfg)
       ∧ ((∀ g', g' ∈ groups →
             returns (normalizePackageNames g' (pkgNamesOf packages))) →
          ∃ linked,
            linkedMessages json (pkgNamesOf packages) = Ok linked
            ∧ nonExistingLinkedMessage p ∈ linked)
       ∧ (∀ messages, collect json packages = Ok messages →
            nonExistingLinkedMessage p ∈ messages
            ∧ parse json packages
              = Throw (ValidationError (validationHeader +:+ Str.join nl messages)))).
Proof.
  intros Hv Hg. split.
  - intros cfg (_ & Hnil & _)%parse_Ok g p Hin Hp.
    apply checkedMessages_nil in Hnil as (_ & _ & _ & _ & Hl & _).
    by eapply linked_patterns_matched.
  - intros g p Hin Hp Hno.
    assert (Hcollected : ∀ messages, collect json packages = Ok messages →
              nonExistingLinkedMessage p ∈ messages).
    { intros messages Hc.
      pose proof Hc as (checked & experimental & Hch & _ & _)%collect_Ok.
      apply checkedMessages_Ok in Hch as (linked & ignore & Hl & _ & _).
      eapply linkedMessages_collected; [exact Hl|exact Hc|].
      by eapply unmatched_linked_reported. }
    split; [|split].
    + intros cfg (Hc & _)%parse_Ok. apply Hcollected in Hc.
      by apply elem_of_nil in Hc.
    + intros Hres.
      destruct (linkedMessages_returns json (pkgNamesOf packages)) as [linked Hl].
      { intros v' groups' g' Hv' Hg' Hin'. apply Hres. congruence. }
      exists linked. split; [done|]. by eapply unmatched_linked_reported.
    + intros messages Hc. split; [by apply Hcollected|].
      eapply collected_rejected; [done|by apply Hcollected].
Qed.

Lemma unmatched_ignore_reported (json : WrittenConfig.t) (packages : Workspace.Packages)
    (pkgNames : list string) (v : JSON) (ignore messages : list string) (p : string) :
  WrittenConfig.ignore json = Some v → asStrings v = Some ignore →
  ignoreMessages json packages pkgNames = Ok messages →
  p ∈ ignore →
  (∀ n, n ∈ pkgNames → isMatch n p = Ok false) →
  nonExistingIgnoreMessage p ∈ messages.
Proof.
  intros Hv Hi Hm Hp Hno.
  rewrite (ignoreMessages_valid _ _ _ _ _ Hv Hi) in Hm.
  apply bind_Ok in Hm as (r & Hr & [= <-]).
  apply normalizePackageNames_Ok in Hr as (_ & _ & Hunmatched & _).
  apply elem_of_app. left.
  apply list_elem_of_In, in_map, list_elem_of_In, Hunmatched. done.
Qed.

(** X12: every pattern of the ignore list must match a package, in the
    same way: an accepted configuration has none that matches nothing, and one
    that matches nothing is never accepted; it is reported by its own message
    when micromatch lets the list resolve, and a pass that returns its messages
    ends in the validation error that carries that message. *)
Theorem ignore_patterns_must_match (json : WrittenConfig.t)
    (packages : Workspace.Packages) (v : JSON) (ignore : list string) :
  WrittenConfig.ignore json = Some v →
  asStrings v = Some ignore →
  (∀ cfg : Config.t, parse json packages = Ok cfg →
     ∀ p, p ∈ ignore → ∃ n, n ∈ pkgNamesOf packages ∧ isMatch n p = Ok true)
  ∧ (∀ p, p ∈ ignore →
       (∀ n, n ∈ pkgNamesOf packages → isMatch n p = Ok false) →
       (∀ cfg : Config.t, parse json packages ≠ Ok cfg)
       ∧ (returns (normalizePackageNames ignore (pkgNamesOf packages)) →
          ∃ messages,
            ignoreMessages json packages (pkgNamesOf packages) = Ok messages
            ∧ nonExistingIgnoreMessage p ∈ messages)
       ∧ (∀ messages, collect json packages = Ok messages →
            nonExistingIgnoreMessage p ∈ messages
            ∧ parse json packages
              = Throw (ValidationError (validationHeader +:+ Str.join nl messages)))).
Proof.
  intros Hv Hi. split.
  - intros cfg (_ & Hnil & _)%parse_Ok p Hp.
    apply checkedMessages_nil in Hnil as (_ & _ & _ & _ & _ & _ & Hig).
    pose proof Hig as Hig2. rewrite (ignoreMessages_valid _ _ _ _ _ Hv Hi) in Hig2.
    apply bind_Ok in Hig2 as (r & Hr & _).
    apply normalizePackageNames_Ok in Hr as (_ & _ & Hunmatched & Hmatched).
    apply Hmatched; [done|]. intros [_ Hno]%Hunmatched.
    assert (H : nonExistingIgnoreMessage p ∈ ([] : list string));
      [|by apply elem_of_nil in H].
    by eapply (unmatched_ignore_reported json packages _ v ignore [] p).
  - intros p Hp Hno.
    assert (Hcollected : ∀ messages, collect json packages = Ok messages →
              nonExistingIgnoreMessage p ∈ messages).
    { intros messages Hc.
      pose proof Hc as (checked & experimental & Hch & _ & _)%collect_Ok.
      apply checkedMessages_Ok in Hch as (linked & ig & _ & Hig & _).
      eapply ignoreMessages_collected; [exact Hig|exact Hc|].
      by eapply unmatched_ignore_reported. }
    split; [|split].
    + intros cfg (Hc & _)%parse_Ok. apply Hcollected in Hc.
      by apply elem_of_nil in Hc.
    + intros Hres.
      destruct (ignoreMessages_returns json packages (pkgNamesOf packages))
        as [messages Hm].
      { intros v' ignore' Hv' Hi'. assert (ignore' = ignore) as -> by congruence. done. }
      exists messages. split; [done|]. by eapply unmatched_ignore_reported.
    + intros messages Hc. split; [by apply Hcollected|].
      eapply collected_rejected; [done|by apply Hcollected].
Qed.

End UnmatchedPatterns.

(** ** No name is reported as duplicated without cause *)

Lemma twice_cons (x y : string) (l : list string) : twice x l → twice x (y :: l).
Proof. intros (l1 & l2 & l3 & ->). by exists (y :: l1), l2, l3. Qed.

Lemma twice_head (x : string) (l : list string) : x ∈ l → twice x (x :: l).
Proof. intros (a & b & ->)%list_elem_of_split. by exists [], a, b. Qed.

Lemma twice_app_inv (x : string) (a b : list string) :
  twice x (a ++ b) → twice x a ∨ (x ∈ a ∧ x ∈ b) ∨ twice x b.
Proof.
  induction a as [|y a IH]; [by right; right|].
  intros (l1 & l2 & l3 & H). destruct l1 as [|z l1]; simpl in H; injection H as -> H.
  - assert (Hin : x ∈ a ++ b) by (rewrite H; apply elem_of_app; right; by left).
    apply elem_of_app in Hin as [Ha|Hb].
    + left. by apply twice_head.
    + right. left. split; [by left|done].
  - destruct IH as [Ha|[[Ha Hb]|Hb]].
    + by exists l1, l2, l3.
    + left. by apply twice_cons.
    + right. left. split; [by right|done].
    + by right; right.
Qed.

(** A name is put in the set of duplicates only if it was seen before. *)
Lemma scanGroup_dup_only (names found dup : list string) (x : string) :
  x ∈ (scanGroup names (found, dup)).2 →
  x ∈ dup ∨ (x ∈ found ∧ x ∈ names) ∨ twice x names.
Proof.
  revert found dup. induction names as [|y names IH]; intros found dup; [by left|].
  rewrite scanGroup_cons. intros [Hd|[[Hf Hn]|Ht]]%IH.
  - case_bool_decide as Hy; [|by left].
    apply elem_of_setAdd in Hd as [?| ->]; [by left|].
    right. left. split; [done|by left].
  - apply elem_of_setAdd in Hf as [?| ->].
    + right. left. split; [done|by right].
    + right. right. by apply twice_head.
  - right. right. by apply twice_cons.
Qed.

(** A name that occurs twice in a concatenation of duplicate-free lists
    occurs in two of them. *)
Lemma twice_concat_inv (groups : list (list string)) (x : string) :
  (∀ g, g ∈ groups → NoDup g) →
  twice x (concat groups) →
  ∃ i j gi gj, i ≠ j ∧ groups !! i = Some gi ∧ groups !! j = Some gj
               ∧ x ∈ gi ∧ x ∈ gj.
Proof.
  induction groups as [|g groups IH]; intros Hnd.
  - intros (l1 & l2 & l3 & H). by destruct l1.
  - simpl. intros [Hg|[[Hg Hrest]|Hrest]]%twice_app_inv.
    + destruct (twice_not_NoDup x g Hg). apply Hnd. by left.
    + apply list_elem_of_In, in_concat in Hrest as (g' & Hg'%list_elem_of_In & Hx%list_elem_of_In).
      apply list_elem_of_lookup in Hg' as [j Hj].
      by exists 0, (S j), g, g'.
    + destruct IH as (i & j & gi & gj & Hij & Hi & Hj & Hxi & Hxj); [|done|].
      { intros g' Hg'. apply Hnd. by right. }
      exists (S i), (S j), gi, gj. split; [lia|done].
Qed.

Section DuplicatedNames.

Context {lib : Collaborators}.

(** X13: a package is reported as defined in several linked groups exactly
    when two different groups of the written option resolve to it, given that
    micromatch resolves every group and returns no name twice for one
    group. The message is then one of the check of [linked]; the other
    checks of the pass neither add such a message nor remove it. *)
Theorem duplicated_reported_iff (json : WrittenConfig.t)
    (packages : Workspace.Packages) (v : JSON) (groups : list (list string))
    (n : string) :
  WrittenConfig.linked json = Some v →
  asGroups v = Some groups →
  (∀ g, g ∈ groups →
     ∃ r, normalizePackageNames g (pkgNamesOf packages) = Ok r ∧ NoDup r.1) →
  ∃ linked,
    linkedMessages json (pkgNamesOf packages) = Ok linked
    ∧ (duplicatedMessage n ∈ linked ↔ inTwoGroups (pkgNamesOf packages) groups n)
    ∧ (∀ checked, checkedMessages json packages = Ok checked →
         duplicatedMessage n ∈ checked
         ↔ inTwoGroups (pkgNamesOf packages) groups n).
Proof.
  intros Hv Hg Hnd.
  destruct (resolveGroups_returns (pkgNamesOf packages) groups) as [resolved Hr].
  { intros g [r [Hgr _]]%Hnd. by exists r. }
  assert (Hl : linkedMessages json (pkgNamesOf packages)
               = Ok (unmatchedLinked resolved
                     ++ (duplicatedMessage <$>
                           (scanGroup (resolvedNames resolved) ([], [])).2)))
    by (by rewrite (linkedMessages_valid _ _ _ _ Hv Hg), Hr).
  assert (Hiff : duplicatedMessage n
                   ∈ unmatchedLinked resolved
                     ++ (duplicatedMessage <$>
                           (scanGroup (resolvedNames resolved) ([], [])).2)
                 ↔ inTwoGroups (pkgNamesOf packages) groups n).
  { split.
    - intros [H|H]%elem_of_app.
      { by destruct (unmatchedLinked_notDuplicated _ _ H n). }
      apply list_elem_of_fmap in H as (n' & ->%(inj duplicatedMessage) & Hn).
      apply scanGroup_dup_only in Hn as [Hn|[[Hn _]|Hn]];
        [by apply elem_of_nil in Hn|by apply elem_of_nil in Hn|].
      unfold resolvedNames in Hn. apply twice_concat_inv in Hn.
      + destruct Hn as (i & j & mi & mj & Hij & Hi & Hj & Hni & Hnj).
        rewrite list_lookup_fmap in Hi, Hj.
        destruct (resolved !! i) as [ri|] eqn:Hri; [|done].
        destruct (resolved !! j) as [rj|] eqn:Hrj; [|done].
        simplify_eq/=.
        destruct (proj2 (resolveGroups_lookup _ _ _ i Hr) ri Hri) as (gi & Hgi & Hni').
        destruct (proj2 (resolveGroups_lookup _ _ _ j Hr) rj Hrj) as (gj & Hgj & Hnj').
        apply normalizePackageNames_Ok in Hni' as [Hmi _].
        apply normalizePackageNames_Ok in Hnj' as [Hmj _].
        by exists i, j, gi, gj, ri.1, rj.1.
      + intros m (r & -> & Hin)%list_elem_of_fmap.
        apply list_elem_of_lookup in Hin as [i Hi].
        destruct (proj2 (resolveGroups_lookup _ _ _ i Hr) r Hi) as (g & Hgi & Hgr).
        destruct (Hnd g) as (r' & Hgr' & Hnodup); [by eapply list_elem_of_lookup_2|].
        by assert (r' = r) as -> by congruence.
    - intros Htwo. apply elem_of_app. right. apply list_elem_of_fmap_2.
      destruct (scanGroup_spec (resolvedNames resolved) [] [])
        as (_ & _ & _ & Hin & _).
      apply Hin. by eapply inTwoGroups_twice. }
  eexists. split; [exact Hl|]. split; [exact Hiff|].
  intros checked Hch. rewrite <- Hiff.
  rewrite !occurrences_elem_of. by rewrite (duplicated_in_linked _ _ _ _ _ Hl Hch).
Qed.

End DuplicatedNames.

(** ** The example collaborators keep their contracts *)

Lemma fixture_keep_spec (pattern : string) (items keep : list string) (x : string) :
  x ∈ foldl (λ keep item,
               if Fixture.glob pattern item then setAdd item keep else keep)
            keep items
  ↔ x ∈ keep ∨ (x ∈ items ∧ Fixture.glob pattern x = true).
Proof.
  revert keep. induction items as [|y items IH]; intros keep; simpl.
  - split; [by left|]. by intros [?|[?%elem_of_nil _]].
  - rewrite IH. destruct (Fixture.glob pattern y) eqn:E.
    + rewrite elem_of_setAdd, elem_of_cons. split.
      * intros [[?| ->]|[? ?]]; eauto.
      * intros [?|[[->|?] ?]]; eauto.
    + rewrite elem_of_cons. split.
      * intros [?|[? ?]]; eauto.
      * intros [?|[[->|?] ?]]; eauto. congruence.
Qed.

Lemma fixture_micromatch_from (items patterns keep : list string) (x : string) :
  x ∈ foldl (λ keep pattern,
               foldl (λ keep item,
                        if Fixture.glob pattern item then setAdd item keep else keep)
                     keep items)
            keep patterns
  ↔ x ∈ keep ∨ (x ∈ items ∧ ∃ p, p ∈ patterns ∧ Fixture.glob p x = true).
Proof.
  revert keep. induction patterns as [|p patterns IH]; intros keep; simpl.
  - split; [by left|]. by intros [?|[_ (p & ?%elem_of_nil & _)]].
  - rewrite IH, fixture_keep_spec. split.
    + intros [[Hk|[Hi Hm]]|[Hi (p' & Hp' & Hm)]].
      * by left.
      * right. split; [done|]. exists p. split; [by left|done].
      * right. split; [done|]. exists p'. split; [by right|done].
    + intros [Hk|[Hi (p' & [->|Hp']%elem_of_cons & Hm)]].
      * left. by left.
      * left. by right.
      * right. split; [done|]. by exists p'.
Qed.

Lemma fixture_isMatch_true (x p : string) :
  Fixture.isMatch x p = Ok true ↔ p ≠ "" ∧ Fixture.glob p x = true.
Proof.
  unfold Fixture.isMatch. destruct (Str.eqb p "") eqn:E.
  - apply eqb_true in E. split; [done|]. by intros [? _].
  - apply bool_decide_eq_false in E. split; [by intros [= ->]|by intros [_ ->]].
Qed.

(** When the example micromatch returns, it returns the items that match
    one of the patterns. *)
Lemma fixture_micromatch_spec (items patterns matching : list string) :
  Fixture.micromatch items patterns = Ok matching →
  ∀ x, x ∈ matching
       ↔ x ∈ items ∧ ∃ p, p ∈ patterns ∧ Fixture.isMatch x p = Ok true.
Proof.
  unfold Fixture.micromatch. destruct (Str.includes patterns "") eqn:E; [done|].
  apply includes_false in E. intros [= <-] x. rewrite fixture_micromatch_from. split.
  - intros [?%elem_of_nil|[Hx (p & Hp & Hm)]]; [done|]. split; [done|].
    exists p. split; [done|]. apply fixture_isMatch_true. split; [|done].
    by intros ->.
  - intros [Hx (p & Hp & [_ Hm]%fixture_isMatch_true)]. right. split; [done|].
    by exists p.
Qed.

Lemma fixture_plain_match (pattern x : string) :
  pattern ≠ "" → Fixture.plain pattern = true →
  Fixture.isMatch x pattern = Ok true ↔ x = pattern.
Proof.
  intros Hne Hplain. rewrite fixture_isMatch_true.
  assert (H : Fixture.glob pattern x = true ↔ x = pattern); [|by rewrite H; tauto].
  clear Hne. revert x Hplain.
  induction pattern as [|p pattern IH]; intros x; simpl.
  - intros _. apply eqb_true.
  - intros [Hp Hplain]%andb_true_iff. apply negb_true_iff in Hp. rewrite Hp.
    destruct x as [|c x]; [done|].
    rewrite andb_true_iff, bool_decide_eq_true, (IH x Hplain).
    split; [by intros [-> ->]|by intros [= -> ->]].
Qed.

(** ** Instances of the further properties *)

Lemma rewrite_idempotent_witness :
  validVersion "4.0.0" = true
  ∧ rewrite Fixture.Range "^3.0.0" "4.0.0" = Ok "^4.0.0"
  ∧ rewrite Fixture.Range "^4.0.0" "4.0.0" = Ok "^4.0.0".
Proof.
  split; [reflexivity|]. split; [reflexivity|].
  refine (rewrite_idempotent Fixture.Range "^3.0.0" "4.0.0" "^4.0.0" eq_refl eq_refl _).
  intros _. exists "^4.0.0". reflexivity.
Defined.

Lemma rewrite_last_version_wins_witness :
  rewrite Fixture.Range "workspace:~1.2.0" "2.0.0" = Ok "workspace:~2.0.0"
  ∧ rewrite Fixture.Range "workspace:~2.0.0" "3.0.0"
    = rewrite Fixture.Range "workspace:~1.2.0" "3.0.0".
Proof.
  split; [reflexivity|].
  refine (rewrite_last_version_wins Fixture.Range "workspace:~1.2.0" "2.0.0" "3.0.0"
            "workspace:~2.0.0" "~2.0.0" eq_refl eq_refl _ eq_refl _); discriminate.
Defined.

Lemma rewrite_keeps_workspace_scope_witness :
  rewrite Fixture.Range "^3.0.0" "4.0.0" = Ok "^4.0.0"
  ∧ Str.startsWith "workspace:" "^4.0.0" = Str.startsWith "workspace:" "^3.0.0".
Proof.
  split; [reflexivity|].
  exact (rewrite_keeps_workspace_scope Fixture.Range "^3.0.0" "4.0.0" "^4.0.0"
           eq_refl eq_refl).
Defined.

Lemma versionPackage_in_place_witness :
  let σ' := (versionPackage Fixture.Range Fixture.appRelease
               [Fixture.lodashUpdate] Fixture.lodashStore).1 in
  version (σ' 0) = "1.1.0"
  ∧ entry dependencies "lodash" (Fixture.lodashStore 0) = Some "^3.0.0"
  ∧ ∃ r', rewrite Fixture.Range "^3.0.0" "4.0.0" = Ok r'
          ∧ entry dependencies "lodash" (σ' 0) = Some r'.
Proof.
  pose proof (versionPackage_in_place Fixture.Range Fixture.appRelease
                [Fixture.lodashUpdate] Fixture.lodashStore)
    as (_ & Hversion & _ & _ & _ & _ & _ & Htargets).
  split; [exact Hversion|]. split; [reflexivity|].
  refine (Htargets _ _ dependencies Fixture.lodashUpdate "^3.0.0" _ eq_refl).
  - by_computation.
  - vm_compute. reflexivity.
  - apply list_elem_of_singleton. reflexivity.
Defined.

Lemma versionPackage_rewrites_targets_witness :
  entry dependencies "lodash" (Fixture.lodashStore 0) = Some "^3.0.0"
  ∧ ∃ r', rewrite Fixture.Range "^3.0.0" "4.0.0" = Ok r'
          ∧ entry dependencies "lodash"
              ((versionPackage Fixture.Range Fixture.appRelease
                  [Fixture.lodashUpdate] Fixture.lodashStore).1 0)
            = Some r'.
Proof.
  split; [reflexivity|].
  refine (versionPackage_rewrites_targets Fixture.Range Fixture.appRelease
            [Fixture.lodashUpdate] Fixture.lodashStore dependencies
            Fixture.lodashUpdate "^3.0.0" _ _ _ eq_refl).
  - by_computation.
  - vm_compute. reflexivity.
  - apply list_elem_of_singleton. reflexivity.
Defined.

Lemma versionPackage_returns_iff_witness :
  (versionPackage Fixture.Range Fixture.appRelease
     [Fixture.lodashUpdate] Fixture.lodashStore).2 = Ok Fixture.appRelease
  ∧ readsPrototype dependencies "constructor" (Fixture.lodashStore 0) = true
  ∧ (versionPackage Fixture.Range Fixture.appRelease
       [Fixture.constructorUpdate] Fixture.lodashStore).2 ≠ Ok Fixture.appRelease.
Proof.
  split; [|split; [reflexivity|]].
  - refine (proj2 (versionPackage_returns_iff Fixture.Range Fixture.appRelease
                     [Fixture.lodashUpdate] Fixture.lodashStore _) _).
    + by_computation.
    + split.
      * intros type u r ->%list_elem_of_singleton Hr.
        destruct type; try discriminate Hr.
        injection Hr as <-. by eexists.
      * intros type u ->%list_elem_of_singleton. by destruct type.
  - intros Hout.
    assert (Hnd : NoDup (upd_name <$> [Fixture.constructorUpdate])) by by_computation.
    pose proof (proj2 (proj1 (versionPackage_returns_iff Fixture.Range Fixture.appRelease
                                [Fixture.constructorUpdate] Fixture.lodashStore Hnd) Hout)
                  dependencies Fixture.constructorUpdate
                  ltac:(apply list_elem_of_singleton; reflexivity)) as H.
    discriminate H.
Defined.

Lemma versionPackage_throws_only_witness :
  (versionPackage Fixture.Range Fixture.appRelease
     [Fixture.constructorUpdate] Fixture.lodashStore).2 = Throw TypeError
  ∧ ((∃ text, TypeError = InvalidRange text ∧ Fixture.Range text = None)
     ∨ (TypeError = TypeError
        ∧ ∃ (type : DependencyType) (u : VersionUpdate),
            u ∈ [Fixture.constructorUpdate]
            ∧ readsPrototype type (upd_name u)
                (Fixture.lodashStore (packageJson Fixture.appRelease)) = true)).
Proof.
  assert (H : (versionPackage Fixture.Range Fixture.appRelease
                 [Fixture.constructorUpdate] Fixture.lodashStore).2
              = Throw TypeError) by (vm_compute; reflexivity).
  split; [exact H|].
  exact (versionPackage_throws_only Fixture.Range Fixture.appRelease
           [Fixture.constructorUpdate] Fixture.lodashStore _ H).
Defined.

Lemma versionPackage_untargeted_witness :
  (∀ (type : DependencyType) (u : VersionUpdate),
     u ∈ [Fixture.reactUpdate] →
     entry type (upd_name u) (Fixture.lodashStore (packageJson Fixture.appRelease)) = None
     ∧ readsPrototype type (upd_name u)
         (Fixture.lodashStore (packageJson Fixture.appRelease)) = false)
  ∧ versionPackage Fixture.Range Fixture.appRelease [Fixture.reactUpdate]
      Fixture.lodashStore
    = (write 0 (setVersion "1.1.0" (Fixture.lodashStore 0)) Fixture.lodashStore,
       Ok Fixture.appRelease).
Proof.
  assert (H : ∀ (type : DependencyType) (u : VersionUpdate),
            u ∈ [Fixture.reactUpdate] →
            entry type (upd_name u)
              (Fixture.lodashStore (packageJson Fixture.appRelease)) = None
            ∧ readsPrototype type (upd_name u)
                (Fixture.lodashStore (packageJson Fixture.appRelease)) = false).
  { intros type u ->%list_elem_of_singleton. by destruct type. }
  split; [exact H|].
  exact (versionPackage_untargeted Fixture.Range Fixture.appRelease
           [Fixture.reactUpdate] Fixture.lodashStore H).
Defined.

Lemma accepted_config_well_typed_witness :
  Fixture.parse emptyWrittenConfig Fixture.twoPackages = Ok fallbackConfig
  ∧ (Config.access fallbackConfig = JString "restricted"
     ∨ Config.access fallbackConfig = JString "public").
Proof.
  assert (Hok : Fixture.parse emptyWrittenConfig Fixture.twoPackages = Ok fallbackConfig)
    by (vm_compute; reflexivity).
  split; [exact Hok|].
  exact (proj1 (proj2 (@accepted_config_well_typed Fixture.collaborators
                         emptyWrittenConfig Fixture.twoPackages fallbackConfig Hok))).
Defined.

Lemma experimental_options_shape_unchecked_witness :
  JNumber 5 ≠ JNull ∧ isObject (JNumber 5) = false
  ∧ Fixture.parse (withExperimental (Some (JNumber 5)) emptyWrittenConfig)
      Fixture.twoPackages
    = Fixture.parse (withExperimental None emptyWrittenConfig) Fixture.twoPackages.
Proof.
  assert (H : JNumber 5 ≠ JNull) by discriminate.
  split; [exact H|]. split; [reflexivity|].
  exact (@experimental_options_shape_unchecked Fixture.collaborators
           emptyWrittenConfig Fixture.twoPackages (JNumber 5) H eq_refl).
Defined.

Lemma linked_patterns_must_match_witness :
  (Fixture.parse Fixture.linkedApart Fixture.threePackages
     = Ok (Fixture.configWith [["pkg-1"]; ["pkg-2"; "pkg-3"]] [])
   ∧ ∃ n, n ∈ pkgNamesOf Fixture.threePackages ∧ Fixture.isMatch n "pkg-3" = Ok true)
  ∧ (∀ n, n ∈ pkgNamesOf Fixture.threePackages → Fixture.isMatch n "nope" = Ok false)
  ∧ Fixture.collect Fixture.linkedUnknown Fixture.threePackages
    = Ok [nonExistingLinkedMessage "nope"]
  ∧ nonExistingLinkedMessage "nope" ∈ [nonExistingLinkedMessage "nope"]
  ∧ Fixture.parse Fixture.linkedUnknown Fixture.threePackages
    = Throw (ValidationError
               (validationHeader +:+ Str.join nl [nonExistingLinkedMessage "nope"])).
Proof.
  split.
  - assert (Hok : Fixture.parse Fixture.linkedApart Fixture.threePackages
                  = Ok (Fixture.configWith [["pkg-1"]; ["pkg-2"; "pkg-3"]] []))
      by (vm_compute; reflexivity).
    split; [exact Hok|].
    refine (proj1 (@linked_patterns_must_match Fixture.collaborators
                     Fixture.linkedApart Fixture.threePackages _
                     [["pkg-1"]; ["pkg-2"; "pkg-3"]] eq_refl eq_refl)
              _ Hok ["pkg-2"; "pkg-3"] "pkg-3" _ _); by_computation.
  - assert (Hno : ∀ n, n ∈ pkgNamesOf Fixture.threePackages →
                       Fixture.isMatch n "nope" = Ok false).
    { intros n Hn. change (pkgNamesOf Fixture.threePackages)
        with ["pkg-1"; "pkg-2"; "pkg-3"] in Hn.
      repeat (apply elem_of_cons in Hn as [->|Hn]; [reflexivity|]).
      by apply elem_of_nil in Hn. }
    assert (Hc : Fixture.collect Fixture.linkedUnknown Fixture.threePackages
                 = Ok [nonExistingLinkedMessage "nope"])
      by (vm_compute; reflexivity).
    split; [exact Hno|]. split; [exact Hc|].
    refine (proj2 (proj2 (proj2 (@linked_patterns_must_match Fixture.collaborators
                     Fixture.linkedUnknown Fixture.threePackages _
                     [["pkg-1"; "nope"]] eq_refl eq_refl)
              ["pkg-1"; "nope"] "nope" _ _ Hno)) _ Hc); by_computation.
Defined.

Lemma ignore_patterns_must_match_witness :
  (Fixture.parse Fixture.ignoreBoth Fixture.twoPackages
     = Ok (Fixture.configWith [] ["pkg-a"; "other"])
   ∧ ∃ n, n ∈ pkgNamesOf Fixture.twoPackages ∧ Fixture.isMatch n "other" = Ok true)
  ∧ (∀ n, n ∈ pkgNamesOf Fixture.twoPackages → Fixture.isMatch n "nope" = Ok false)
  ∧ Fixture.collect Fixture.ignoreUnknown Fixture.twoPackages
    = Ok [nonExistingIgnoreMessage "nope"]
  ∧ nonExistingIgnoreMessage "nope" ∈ [nonExistingIgnoreMessage "nope"]
  ∧ Fixture.parse Fixture.ignoreUnknown Fixture.twoPackages
    = Throw (ValidationError
               (validationHeader +:+ Str.join nl [nonExistingIgnoreMessage "nope"])).
Proof.
  split.
  - assert (Hok : Fixture.parse Fixture.ignoreBoth Fixture.twoPackages
                  = Ok (Fixture.configWith [] ["pkg-a"; "other"]))
      by (vm_compute; reflexivity).
    split; [exact Hok|].
    refine (proj1 (@ignore_patterns_must_match Fixture.collaborators
                     Fixture.ignoreBoth Fixture.twoPackages _
                     ["pkg-a"; "other"] eq_refl eq_refl)
              _ Hok "other" _); by_computation.
  - assert (Hno : ∀ n, n ∈ pkgNamesOf Fixture.twoPackages →
                       Fixture.isMatch n "nope" = Ok false).
    { intros n Hn. change (pkgNamesOf Fixture.twoPackages)
        with ["pkg-a"; "other"] in Hn.
      repeat (apply elem_of_cons in Hn as [->|Hn]; [reflexivity|]).
      by apply elem_of_nil in Hn. }
    assert (Hc : Fixture.collect Fixture.ignoreUnknown Fixture.twoPackages
                 = Ok [nonExistingIgnoreMessage "nope"])
      by (vm_compute; reflexivity).
    split; [exact Hno|]. split; [exact Hc|].
    refine (proj2 (proj2 (proj2 (@ignore_patterns_must_match Fixture.collaborators
                     Fixture.ignoreUnknown Fixture.twoPackages _
                     ["nope"] eq_refl eq_refl)
              "nope" _ Hno)) _ Hc); by_computation.
Defined.

Lemma duplicated_reported_iff_witness :
  (∀ g, g ∈ [["pkg-1"; "pkg-2"]; ["pkg-2"; "pkg-3"]] →
     ∃ r, @normalizePackageNames Fixture.collaborators g
            (pkgNamesOf Fixture.threePackages) = Ok r
          ∧ NoDup r.1)
  ∧ ∃ linked,
      @linkedMessages Fixture.collaborators Fixture.linkedOverlapping
        (pkgNamesOf Fixture.threePackages) = Ok linked
      ∧ (duplicatedMessage "pkg-2" ∈ linked
         ↔ @inTwoGroups Fixture.collaborators (pkgNamesOf Fixture.threePackages)
             [["pkg-1"; "pkg-2"]; ["pkg-2"; "pkg-3"]] "pkg-2")
      ∧ (∀ checked,
           @checkedMessages Fixture.collaborators Fixture.linkedOverlapping
             Fixture.threePackages = Ok checked →
           duplicatedMessage "pkg-2" ∈ checked
           ↔ @inTwoGroups Fixture.collaborators (pkgNamesOf Fixture.threePackages)
               [["pkg-1"; "pkg-2"]; ["pkg-2"; "pkg-3"]] "pkg-2").
Proof.
  assert (Hnd : ∀ g, g ∈ [["pkg-1"; "pkg-2"]; ["pkg-2"; "pkg-3"]] →
                  ∃ r, @normalizePackageNames Fixture.collaborators g
                         (pkgNamesOf Fixture.threePackages) = Ok r
                       ∧ NoDup r.1).
  { intros g Hg.
    repeat (apply elem_of_cons in Hg as [->|Hg];
            [eexists; split; [vm_compute; reflexivity|by_computation]|]).
    by apply elem_of_nil in Hg. }
  split; [exact Hnd|].
  exact (@duplicated_reported_iff Fixture.collaborators
           Fixture.linkedOverlapping Fixture.threePackages _
           [["pkg-1"; "pkg-2"]; ["pkg-2"; "pkg-3"]] "pkg-2"
           eq_refl eq_refl Hnd).
Defined.


Lemma ignore_closed_for_plain_names_witness :
  Fixture.parse Fixture.ignoreBoth Fixture.twoPackages
    = Ok (Fixture.configWith [] ["pkg-a"; "other"])
  ∧ "other" ∈ Config.ignore (Fixture.configWith [] ["pkg-a"; "other"]).
Proof.
  assert (Hok : Fixture.parse Fixture.ignoreBoth Fixture.twoPackages
                = Ok (Fixture.configWith [] ["pkg-a"; "other"]))
    by (vm_compute; reflexivity).
  split; [exact Hok|].
  refine (@ignore_closed_for_plain_names Fixture.collaborators
            Fixture.ignoreBoth Fixture.twoPackages _ ["pkg-a"; "other"]
            (Fixture.configWith [] ["pkg-a"; "other"]) "pkg-a" "other"
            (fixture_micromatch_spec _ _) _ eq_refl eq_refl Hok _ _ _).
  - intros p x Hp _. apply fixture_plain_match.
    + repeat (apply elem_of_cons in Hp as [->|Hp]; [discriminate|]).
      by apply elem_of_nil in Hp.
    + repeat (apply elem_of_cons in Hp as [->|Hp]; [reflexivity|]).
      by apply elem_of_nil in Hp.
  - by_computation.
  - by_computation.
  - by_computation.
Defined.

(** ** Running [versionPackage] again *)

Lemma setEntry_id (type : DependencyType) (dep r : string) (pj : PackageJSON) :
  entry type dep pj = Some r → setEntry type dep r pj = pj.
Proof.
  unfold entry, setEntry. intros H.
  assert (Hb : ∀ t, (if decide (t = type) then insert dep r <$> block t pj
                     else block t pj) = block t pj).
  { intros t. case_decide as Ht; [subst t|done].
    destruct (block type pj) as [deps|]; [|done]. simpl in *.
    by rewrite insert_id. }
  destruct pj. simpl in *. f_equal; apply Hb.
Qed.

Lemma setVersion_id (pj : PackageJSON) : setVersion (version pj) pj = pj.
Proof. by destruct pj. Qed.

(** A loop whose iterations all return and keep an invariant returns and
    keeps it. *)
Lemma forEach_inv {A} (I : Store → Prop) (xs : list A) (body : A → M unit) :
  (∀ x σ, x ∈ xs → I σ → I (body x σ).1 ∧ (body x σ).2 = Ok ()) →
  ∀ σ, I σ → I (forEach xs body σ).1 ∧ (forEach xs body σ).2 = Ok ().
Proof.
  induction xs as [|x xs IH]; intros Hbody σ Hσ; [done|].
  rewrite forEach_cons.
  destruct (Hbody x σ ltac:(left) Hσ) as [H1 H2].
  destruct (body x σ) as [σ' [[]|e]]; simpl in *; [|done].
  apply IH; [|done]. intros y σ0 Hy. apply Hbody. by right.
Qed.

Section VersionPackageAgain.

Variable Range : string → option string.

(** On a manifest whose targeted entries the loop body leaves as they are,
    and where no update reads a member of the prototype, the call only sets
    the version. *)
Lemma versionPackage_fixpoint (release : Release) (updates : list VersionUpdate)
    (σ : Store) :
  (∀ type u r, u ∈ updates →
     entry type (upd_name u) (σ (packageJson release)) = Some r →
     rewrite Range r (upd_version u) = Ok r) →
  (∀ type u, u ∈ updates →
     readsPrototype type (upd_name u) (σ (packageJson release)) = false) →
  (versionPackage Range release updates σ).1 (packageJson release)
  = setVersion (newVersion release) (σ (packageJson release))
  ∧ (versionPackage Range release updates σ).2 = Ok release.
Proof.
  intros Hfix Hplain. rewrite versionPackage_eq. cbv zeta.
  set (l := packageJson release).
  set (pj1 := setVersion (newVersion release) (σ l)).
  assert (Hstep : ∀ type u σ0, u ∈ updates → σ0 l = pj1 →
            (updateDep Range l type u σ0).1 l = pj1
            ∧ (updateDep Range l type u σ0).2 = Ok ()).
  { intros type u σ0 Hu Hσ0.
    destruct (entry type (upd_name u) (σ0 l)) as [r|] eqn:Hr.
    - rewrite (updateDep_entry Range l type u σ0 r Hr).
      assert (Hr' : entry type (upd_name u) (σ l) = Some r).
      { rewrite Hσ0 in Hr. unfold pj1 in Hr. by rewrite entry_setVersion in Hr. }
      pose proof (Hfix type u r Hu Hr') as Hrw. unfold rewrite in Hrw.
      destruct (newRange Range r (upd_version u)) as [[r'|]|e]; simpl in *; try done.
      injection Hrw as ->. rewrite write_same. split; [|done].
      rewrite setEntry_id by done. done.
    - pose proof (Hplain type u Hu) as Hp. fold l in Hp.
      rewrite (updateDep_absent Range l type u σ0 Hr), Hσ0. unfold pj1.
      by rewrite readsPrototype_setVersion, Hp. }
  assert (Hblock : ∀ type σ0, σ0 l = pj1 →
            (updateBlock Range l updates type σ0).1 l = pj1
            ∧ (updateBlock Range l updates type σ0).2 = Ok ()).
  { intros type σ0 Hσ0. rewrite updateBlock_cases.
    destruct (block type (σ0 l)); [|done].
    apply (forEach_inv (λ σ1, σ1 l = pj1)); [|done].
    intros u σ1 Hu Hσ1. by apply Hstep. }
  destruct (forEach_inv (λ σ1, σ1 l = pj1) DEPENDENCY_TYPES
              (updateBlock Range l updates)
              (λ type σ0 _ Hσ0, Hblock type σ0 Hσ0)
              (write l pj1 σ) (write_same l pj1 σ)) as [H1 H2].
  destruct (forEach DEPENDENCY_TYPES _ _) as [σ' [[]|e]]; simpl in *; done.
Qed.

(** After the call the manifest has the new version and, in each block,
    the keys it had. *)
Lemma versionPackage_version_and_keys (release : Release)
    (updates : list VersionUpdate) (σ : Store) :
  let l := packageJson release in
  let σ' := (versionPackage Range release updates σ).1 in
  version (σ' l) = newVersion release
  ∧ ∀ type, dom <$> block type (σ' l) = dom <$> block type (σ l).
Proof.
  intros l σ'.
  by destruct (versionPackage_leaves Range release updates σ)
    as (_ & H2 & _ & _ & H5 & _).
Qed.

(** X16: [versionPackage] is idempotent. When the updates have distinct
    names and bare versions and a first call returned, a second call with the
    same release and updates, on the store the first one left, returns as well
    and leaves the manifest as it is, provided semver parses the ranges that
    the first call wrote. *)
Theorem versionPackage_idempotent (release : Release)
    (updates : list VersionUpdate) (σ : Store) :
  NoDup (upd_name <$> updates) →
  (∀ u, u ∈ updates → validVersion (upd_version u) = true) →
  (versionPackage Range release updates σ).2 = Ok release →
  (∀ type u r r', u ∈ updates →
     entry type (upd_name u) (σ (packageJson release)) = Some r →
     rewrite Range r (upd_version u) = Ok r' → r' ≠ r →
     is_Some (Range (workspaceInner r'))) →
  let σ' := (versionPackage Range release updates σ).1 in
  (versionPackage Range release updates σ').2 = Ok release
  ∧ (versionPackage Range release updates σ').1 (packageJson release)
    = σ' (packageJson release).
Proof.
  intros Hnd Hvalid Hout Hparse σ'.
  destruct (versionPackage_spec Range release updates σ Hnd) as [Hok _].
  destruct (Hok Hout) as [Hdeclared Hnone].
  destruct (versionPackage_version_and_keys release updates σ) as [Hv Hd].
  fold σ' in Hv, Hd, Hdeclared.
  assert (Hfix : ∀ type u r', u ∈ updates →
            entry type (upd_name u) (σ' (packageJson release)) = Some r' →
            rewrite Range r' (upd_version u) = Ok r').
  { intros type u r' Hu Hr'.
    assert (Hdom : is_Some (entry type (upd_name u) (σ (packageJson release)))).
    { specialize (Hd type). unfold entry in Hr' |- *.
      destruct (block type (σ' (packageJson release))) as [deps'|]; [|done].
      destruct (block type (σ (packageJson release))) as [deps|]; [|done].
      simpl in *. injection Hd as Hd.
      apply elem_of_dom. rewrite <- Hd. apply elem_of_dom. by eexists. }
    destruct Hdom as [r Hr].
    destruct (Hdeclared type u r Hu Hr) as (o & Ho & He).
    rewrite He in Hr'. injection Hr' as <-.
    assert (Hrw : rewrite Range r (upd_version u) = Ok (default r o))
      by (unfold rewrite; by rewrite Ho).
    destruct (decide (default r o = r)) as [Hsame|Hne];
      [by rewrite Hsame in Hrw |- *|].
    destruct (Hparse type u r (default r o) Hu Hr Hrw Hne) as [n' Hn'].
    destruct (rewrite_cases Range _ _ _ Hrw) as [?|[Heq _]]; [done|].
    rewrite Heq in Hn' |- *. unfold rewrite.
    rewrite (newRange_rewritten Range r _ n' (Hvalid u Hu) Hn').
    by destruct (Str.eqb n' ""). }
  assert (Hplain : ∀ type u, u ∈ updates →
            readsPrototype type (upd_name u) (σ' (packageJson release)) = false).
  { intros type u Hu. rewrite (readsPrototype_dom _ _ _ _ (Hd type)). by apply Hnone. }
  destruct (versionPackage_fixpoint release updates σ' Hfix Hplain) as [H1 H2].
  split; [done|]. rewrite H1. rewrite <- Hv. apply setVersion_id.
Qed.

End VersionPackageAgain.

Lemma versionPackage_idempotent_witness :
  let σ' := (versionPackage Fixture.Range Fixture.appRelease
               [Fixture.lodashUpdate] Fixture.lodashStore).1 in
  (versionPackage Fixture.Range Fixture.appRelease
     [Fixture.lodashUpdate] Fixture.lodashStore).2 = Ok Fixture.appRelease
  ∧ (versionPackage Fixture.Range Fixture.appRelease [Fixture.lodashUpdate] σ').2
    = Ok Fixture.appRelease
  ∧ (versionPackage Fixture.Range Fixture.appRelease [Fixture.lodashUpdate] σ').1 0
    = σ' 0.
Proof.
  assert (Hout : (versionPackage Fixture.Range Fixture.appRelease
                    [Fixture.lodashUpdate] Fixture.lodashStore).2
                 = Ok Fixture.appRelease) by (vm_compute; reflexivity).
  split; [exact Hout|].
  refine (versionPackage_idempotent Fixture.Range Fixture.appRelease
            [Fixture.lodashUpdate] Fixture.lodashStore _ _ Hout _).
  - by_computation.
  - intros u ->%list_elem_of_singleton. reflexivity.
  - intros type u r r' ->%list_elem_of_singleton Hr Hrw _.
    destruct type; try discriminate Hr.
    injection Hr as <-. injection Hrw as <-. by eexists.
Defined.

(** ** The two helpers of [parse] *)

(** X17: normalising the changelog option is idempotent, and what it returns
    is never a bare string: a module path becomes a pair. *)
Theorem getNormalisedChangelogOption_idempotent (thing : JSON) :
  getNormalisedChangelogOption (getNormalisedChangelogOption thing)
  = getNormalisedChangelogOption thing
  ∧ isString (getNormalisedChangelogOption thing) = false.
Proof. destruct thing as [|[]| | | |]; done. Qed.




Section NormalizePackageNames.

Context {lib : Collaborators}.


End NormalizePackageNames.

